(** * Ballot assigner: a shallow embedding of [ballot_assigner.py]

    The Python class [BallotAssigner] is embedded as state-passing code:
    the fields of [self], the random generator and the observable effects
    (lines printed, directories created, files written) live in one state
    record, and every method is a computation in a small state-and-exception
    monad.  Python integers are [Z]; Python strings are lists of Unicode code
    points; the [dict] holding the assignment is an insertion-ordered
    association list.

    The fields [ballot_ids] and [verifiers] of a state are what [load_data]
    left in them; what the two files hold is answered by a [Host], as is the
    text pandas gives for a frame.  The calls into
    [random] are modelled on a tape of draws, by what the library documents:
    [random.sample] draws positions without replacement, [random.shuffle] is
    the Fisher-Yates loop.  A file is modelled by the rows handed to the csv
    writer, each field as text; the quoting of the csv module is not
    modelled.  Whether a directory can be made and a file written is
    answered by a [FileSystem]. *)

From Stdlib Require Import List ZArith NArith Lia Bool String Ascii.
From Stdlib Require Import Permutation DecimalString.
Import ListNotations.

Local Open Scope Z_scope.

(** ** Python values *)

(** A Python [str]: a sequence of Unicode code points. *)
Definition char := N.
Definition str := list char.

(** A string literal of the source (all of them are ASCII). *)
Definition lit (s : string) : str :=
  List.map N_of_ascii (list_ascii_of_string s).

Definition str_eq_dec : forall a b : str, {a = b} + {a <> b} :=
  list_eq_dec N.eq_dec.

(** [len(l)] as a Python integer. *)
Definition len {A} (l : list A) : Z := Z.of_nat (List.length l).

(** [str(n)] for an integer. *)
Definition str_of_int (n : Z) : str := lit (NilZero.string_of_int (Z.to_int n)).

(** A ballot identifier as [df['id'].tolist()] yields it: an integer when the
    column is numeric, a string otherwise. *)
Inductive Identifier : Type :=
| IdInt (n : Z)
| IdStr (s : str).

(** [str(ballot)], also the text the csv writer emits for the field. *)
Definition py_str (b : Identifier) : str :=
  match b with
  | IdInt n => str_of_int n
  | IdStr s => s
  end.

(** [sep.join(parts)] *)
Fixpoint str_join (sep : str) (parts : list str) : str :=
  match parts with
  | [] => []
  | [p] => p
  | p :: rest => p ++ sep ++ str_join sep rest
  end.

(** [l * n] for a list [l]: empty when [n <= 0]. *)
Definition list_mul {A} (l : list A) (n : Z) : list A :=
  List.concat (List.repeat l (Z.to_nat n)).

(** The bound of a slice, as Python normalises it: a negative index counts
    from the end, and the result is clamped to [0 .. n]. *)
Definition slice_index (n i : Z) : Z :=
  if i <? 0 then Z.max 0 (i + n) else Z.min i n.

(** [l[start:stop]] *)
Definition py_slice {A} (l : list A) (start stop : Z) : list A :=
  let lo := slice_index (len l) start in
  let hi := slice_index (len l) stop in
  firstn (Z.to_nat (hi - lo)) (skipn (Z.to_nat lo) l).

(** ** The insertion-ordered dictionary *)

Module Dict.

(** A Python [dict] with [str] keys: keys are unique and kept in the order
    of their first insertion. *)
Definition t (V : Type) := list (str * V).

Definition empty {V} : t V := [].

(** [d.get(k)] *)
Fixpoint get {V} (k : str) (d : t V) : option V :=
  match d with
  | [] => None
  | (k', v) :: d' => if str_eq_dec k k' then Some v else get k d'
  end.

(** [d[k] = v]: an existing key keeps its position and takes the new
    value, a new key goes to the end. *)
Fixpoint set {V} (k : str) (v : V) (d : t V) : t V :=
  match d with
  | [] => [(k, v)]
  | (k', v') :: d' =>
      if str_eq_dec k k' then (k', v) :: d' else (k', v') :: set k v d'
  end.

Definition keys {V} (d : t V) : list str := List.map fst d.
Definition values {V} (d : t V) : list V := List.map snd d.
Definition items {V} (d : t V) : list (str * V) := d.

(** A run of assignments [d[k] = v], in order. *)
Definition set_all {V} (kvs : list (str * V)) (d : t V) : t V :=
  fold_left (fun d p => set (fst p) (snd p) d) kvs d.

(** Truth value of a dict: [not d] holds for the empty one. *)
Definition is_empty {V} (d : t V) : bool :=
  match d with [] => true | _ => false end.

End Dict.

Definition Assignment := Dict.t (list Identifier).

(** [sum(len(v) for v in assignment.values())] *)
Definition total_assigned (a : Assignment) : Z :=
  List.fold_right (fun v acc => len v + acc) 0 (Dict.values a).

(** ** The random generator *)

(** The generator is a tape of raw draws; [randbelow n] consumes one draw and
    reduces it below [n].  An exhausted tape keeps answering 0. *)
Definition tape := list nat.

Definition randbelow (n : nat) (t : tape) : nat * tape :=
  match t with
  | [] => (0%nat, [])
  | d :: t' => (Nat.modulo d n, t')
  end.

(** Removes the element at position [j]. *)
Fixpoint remove_nth {A} (j : nat) (l : list A) : list A :=
  match l, j with
  | [], _ => []
  | _ :: l', O => l'
  | x :: l', S j' => x :: remove_nth j' l'
  end.

(** The selection loop of [random.sample]: [k] times, draw a position of the
    pool of not yet chosen elements and move that element to the result, so
    that no position of the population is chosen twice. *)
Fixpoint sample_loop {A} (k : nat) (pool : list A) (t : tape) : list A * tape :=
  match k with
  | O => ([], t)
  | S k' =>
      let (j, t1) := randbelow (List.length pool) t in
      match nth_error pool j with
      | Some x =>
          let (rest, t2) := sample_loop k' (remove_nth j pool) t1 in
          (x :: rest, t2)
      | None => ([], t1)
      end
  end.

(** [x[i] = v] *)
Fixpoint list_set {A} (i : nat) (v : A) (x : list A) : list A :=
  match x, i with
  | [], _ => []
  | _ :: x', O => v :: x'
  | a :: x', S i' => a :: list_set i' v x'
  end.

(** [x[i], x[j] = x[j], x[i]] *)
Definition swap {A} (i j : nat) (x : list A) : list A :=
  match nth_error x i, nth_error x j with
  | Some a, Some b => list_set j a (list_set i b x)
  | _, _ => x
  end.

(** The loop of [random.shuffle] (Fisher-Yates):
    [for i in reversed(range(1, len(x))): j = randbelow(i + 1); swap]. *)
Fixpoint shuffle_loop {A} (i : nat) (x : list A) (t : tape) : list A * tape :=
  match i with
  | O => (x, t)
  | S i' =>
      let (j, t1) := randbelow (S i) t in
      shuffle_loop i' (swap i j x) t1
  end.

Definition shuffle {A} (x : list A) (t : tape) : list A * tape :=
  shuffle_loop (List.length x - 1) x t.

(** ** The state and the monad of the methods *)

(** What a run does to the outside world, in order.  [WriteFile] is a file
    opened for writing, written in full and closed; [PartialFile] is a file
    opened for writing (so created or emptied) whose writing was cut short
    by an exception. *)
Inductive Event : Type :=
| Print (line : str)
| MakeDirs (path : str)
| WriteFile (path : str) (rows : list (list str))
| PartialFile (path : str).

(** The fields of [self] that the methods read and write, the random
    generator and the effects performed so far. *)
Record State : Type := mkState {
  ballot_ids : list Identifier;
  verifiers : list str;
  assignment_results : Assignment;
  rng : tape;
  trace : list Event
}.

(** The exceptions of the methods: a [ValueError] or an [OSError], each
    with its subclasses, and its text. *)
Inductive Exn : Type :=
| ValueError (msg : str)
| OSError (msg : str).

Inductive Result (A : Type) : Type :=
| Ok (a : A)
| Raise (e : Exn).
Arguments Ok {A} a.
Arguments Raise {A} e.

Definition M (A : Type) : Type := State -> Result A * State.

Definition ret {A} (a : A) : M A := fun s => (Ok a, s).

Definition bind {A B} (m : M A) (f : A -> M B) : M B :=
  fun s =>
    match m s with
    | (Ok a, s') => f a s'
    | (Raise e, s') => (Raise e, s')
    end.

Definition raise {A} (e : Exn) : M A := fun s => (Raise e, s).

Definition gets {A} (f : State -> A) : M A := fun s => (Ok (f s), s).

Definition emit (e : Event) : M unit :=
  fun s => (Ok tt, mkState (ballot_ids s) (verifiers s) (assignment_results s)
                           (rng s) (trace s ++ [e])).

Definition print (line : str) : M unit := emit (Print line).

Definition set_assignment_results (a : Assignment) : M unit :=
  fun s => (Ok tt, mkState (ballot_ids s) (verifiers s) a (rng s) (trace s)).

(** Runs a function of the random generator on the generator of the state. *)
Definition with_rng {A} (f : tape -> A * tape) : M A :=
  fun s =>
    let (a, t) := f (rng s) in
    (Ok a, mkState (ballot_ids s) (verifiers s) (assignment_results s)
                   t (trace s)).

Notation "x <- m ;; k" := (bind m (fun x => k))
  (at level 61, m at next level, right associativity).
Notation "m ;;; k" := (bind m (fun _ => k))
  (at level 61, right associativity).

(** [for x in xs: body x] *)
Fixpoint for_each {A} (xs : list A) (body : A -> M unit) : M unit :=
  match xs with
  | [] => ret tt
  | x :: xs' => body x ;;; for_each xs' body
  end.

(** ** The library calls *)

(** [random.sample(population, k)]: a [ValueError] unless
    [0 <= k <= len(population)], else [k] elements at distinct positions. *)
Definition random_sample {A} (population : list A) (k : Z) : M (list A) :=
  if (k <? 0) || (len population <? k) then
    raise (ValueError (lit "Sample larger than population or is negative"))
  else with_rng (sample_loop (Z.to_nat k) population).

(** [random.shuffle(x)], returning the shuffled list. *)
Definition random_shuffle {A} (x : list A) : M (list A) :=
  with_rng (shuffle x).

(** ** [BallotAssigner] *)

(** [self.header], set by [__init__] and never assigned again. *)
Definition header : list str := List.map lit [
    "id"; "dominio"; "unidad_educativa"; "grado"; "contador"; "1"; "2"; "3";
    "4"; "5"; "6"; "7"; "8"; "9"; "10"; "11"; "12"; "13"; "14"; "15"; "16";
    "17"; "18"; "19"; "20"; "21"; "21.1"; "21.2"; "21.3"; "21.4"; "21.5";
    "21.6"; "21.7"; "21.8"; "21.9"; "22"; "23"; "24"; "25"; "26"; "27"; "28";
    "29"; "30"; "31"; "31.1"; "31.2"; "31.3"; "31.4"; "31.5"; "31.6"; "32";
    "33"; "34"; "35"; "36"; "37"; "38"; "39"; "40"; "41"; "42"; "43"; "44";
    "45"; "46"; "46.1"; "47"; "48"; "49"; "50"; "51"; "52"; "53"; "54"; "55";
    "56"; "57"; "58"; "59"; "60"; "61"; "62"; "63"; "64"; "65"; "66"; "67";
    "68"; "69"; "70"; "71"; "72"; "73"; "74"; "75"; "76"; "77"; "78"; "79";
    "80"; "81"; "82"; "83"; "84"; "85"; "85.1"; "85.2"; "85.3"; "85.4";
    "85.5"; "85.6"; "85.7"; "85.8"; "85.9"; "85.10"; "85.11"; "85.12";
    "85.13"; "86"; "86.1"; "86.2"; "86.3"; "86.4"; "87"; "87.1"; "87.2";
    "87.3"; "87.4"; "88"; "88.1"; "88.2"; "88.3"; "88.4"; "89"; "89.1";
    "89.2"; "89.3"; "89.4"; "90"; "90.1"; "90.2"; "90.3"; "90.4"; "90.5";
    "90.6"; "90.7"; "90.8"; "90.9"; "90.10"; "90.11"; "90.12"; "90.13";
    "90.14"; "90.15"; "90.16"; "90.17"; "90.18"; "90.19"; "91"; "92"; "93";
    "94"; "95"; "96"; "97"; "98"; "98.1"; "98.2"; "98.3"; "99"; "100"; "101";
    "102"; "103"; "103.1"; "103.2"; "104"; "105"; "106"; "107"; "108"; "109";
    "110"; "111"; "112"; "113"; "114"; "115"; "116"; "117"; "118"; "119";
    "120"; "121"; "122"; "123"; "124"; "125"; "126"; "127"; "128"; "129";
    "129.1"; "129.2"; "129.3"; "129.4"; "129.5"; "129.6"; "129.7"; "129.8";
    "129.9"; "129.10"
  ]%string.

(** [BallotAssigner(...)]: nothing loaded, nothing assigned. *)
Definition init (t : tape) : State := mkState [] [] Dict.empty t [].

Definition NotLoadedError : Exn :=
  ValueError (lit "No data loaded. Please call load_data() first.").

Definition NoAssignmentError : Exn :=
  ValueError (lit "No assignments made. Please call assign_ballots() first.").

Definition is_nil {A} (l : list A) : bool :=
  match l with [] => true | _ => false end.

(** The message of the over-request warning. *)
Definition warning (requested available : Z) : str :=
  lit "Warning: Requested " ++ str_of_int requested ++
  lit " ballots but only " ++ str_of_int available ++ lit " available.".

(** The loop [for i, verifier in enumerate(self.verifiers)] of
    [assign_ballots], from index [i] and [start_index] on. *)
Fixpoint assign_loop (ballots_per_verifier remainder : Z)
    (selected_ballots : list Identifier) (vs : list str)
    (i start_index : Z) (assignment : Assignment) : Assignment :=
  match vs with
  | [] => assignment
  | verifier :: rest =>
      let extra := if i <? remainder then 1 else 0 in
      let end_index := start_index + ballots_per_verifier + extra in
      let assignment :=
        Dict.set verifier (py_slice selected_ballots start_index end_index)
                 assignment in
      assign_loop ballots_per_verifier remainder selected_ballots rest
                  (i + 1) end_index assignment
  end.

Definition assign_ballots (ballots_to_assign : Z) : M Assignment :=
  ids <- gets ballot_ids ;;
  vs <- gets verifiers ;;
  if is_nil ids || is_nil vs then raise NotLoadedError
  else
    ballots_to_assign <-
      (if len ids <? ballots_to_assign then
         print (warning ballots_to_assign (len ids)) ;;; ret (len ids)
       else ret ballots_to_assign) ;;
    selected_ballots <- random_sample ids ballots_to_assign ;;
    let ballots_per_verifier := ballots_to_assign / len vs in
    let remainder := ballots_to_assign mod len vs in
    selected_ballots <- random_shuffle selected_ballots ;;
    let assignment :=
      assign_loop ballots_per_verifier remainder selected_ballots vs 0 0
                  Dict.empty in
    set_assignment_results assignment ;;;
    ret assignment.

(** One record of the summary data frame. *)
Record SummaryRow : Type := mkSummaryRow {
  Verifier : str;
  Ballots_Assigned : Z;
  Ballot_List : str
}.

(** The loop of [get_assignment_summary], appending to [summary_data]. *)
Fixpoint summary_loop (items : list (str * list Identifier))
    (summary_data : list SummaryRow) : list SummaryRow :=
  match items with
  | [] => summary_data
  | (verifier, ballots) :: rest =>
      summary_loop rest
        (summary_data ++
           [mkSummaryRow verifier (len ballots)
                         (str_join (lit ", ") (List.map py_str ballots))])
  end.

Definition get_assignment_summary : M (list SummaryRow) :=
  a <- gets assignment_results ;;
  ret (summary_loop (Dict.items a) []).

(** ** Export *)

(** [c.isalnum()] and whitespace, on ASCII. *)
Definition ascii_isalnum (c : char) : bool :=
  ((48 <=? c) && (c <=? 57) || (65 <=? c) && (c <=? 90) ||
   (97 <=? c) && (c <=? 122))%N.

Definition ascii_isspace (c : char) : bool :=
  ((9 <=? c) && (c <=? 13) || (28 <=? c) && (c <=? 32))%N.

(** The Unicode character database beyond ASCII, which [str.isalnum] and
    [str.rstrip] consult. *)
Class UnicodeData : Type := {
  unicode_isalnum : char -> bool;
  unicode_isspace : char -> bool
}.

(** What became of one block
    [with open(filename, 'w', ...) as csvfile: ...]: the file was written in
    full, or [open] raised, or an exception cut the writing short. *)
Inductive WriteOutcome : Type :=
| Written
| NotOpened (e : Exn)
| Interrupted (e : Exn).

(** The answers of the operating system to the two calls of the export that
    can fail.  An answer may depend on everything done so far. *)
Class FileSystem : Type := {
  makedirs_outcome : list Event -> str -> option Exn;
  write_outcome : list Event -> str -> list (list str) -> WriteOutcome
}.

Section Exporter.

Context {U : UnicodeData} {F : FileSystem}.

Definition isalnum (c : char) : bool :=
  if (c <? 128)%N then ascii_isalnum c else unicode_isalnum c.

Definition isspace (c : char) : bool :=
  if (c <? 128)%N then ascii_isspace c else unicode_isspace c.

(** [c in (' ', '-', '_')] *)
Definition in_extra (c : char) : bool :=
  existsb (N.eqb c) [32; 45; 95]%N.

(** [s.rstrip()]: [s] without its trailing whitespace. *)
Fixpoint rstrip (s : str) : str :=
  match s with
  | [] => []
  | c :: s' =>
      match rstrip s' with
      | [] => if isspace c then [] else [c]
      | r => c :: r
      end
  end.

(** The one-character strings of the generator
    [c for c in verifier if c.isalnum() or c in (' ', '-', '_')]. *)
Fixpoint kept_chars (verifier : str) : list str :=
  match verifier with
  | [] => []
  | c :: rest =>
      if isalnum c || in_extra c then [c] :: kept_chars rest
      else kept_chars rest
  end.

Definition safe_verifier_name (verifier : str) : str :=
  lit "Assigned_ballots_" ++ rstrip (str_join [] (kept_chars verifier)).

Definition filename (output_directory verifier : str) : str :=
  output_directory ++ lit "/" ++ safe_verifier_name verifier ++ lit ".csv".

(** [[ballot_id] + ['0'] * (len(self.header) - 1)], as the writer emits
    it: every field as text. *)
Definition ballot_row (ballot_id : Identifier) : list str :=
  [py_str ballot_id] ++ list_mul [lit "0"] (len header - 1).

(** The rows written for one verifier: the header, then the loop over the
    ballots. *)
Fixpoint ballot_rows (ballots : list Identifier) : list (list str) :=
  match ballots with
  | [] => []
  | ballot_id :: rest => ballot_row ballot_id :: ballot_rows rest
  end.

Definition file_rows (ballots : list Identifier) : list (list str) :=
  header :: ballot_rows ballots.

Definition generated (verifier : str) (ballots : list Identifier) : str :=
  lit "Generated CSV for " ++ verifier ++ lit ": " ++
  str_of_int (len ballots) ++ lit " ballots".

(** [os.makedirs(path, exist_ok=True)].  The empty path is refused on
    every system: [mkdir('')] fails and [''] is no directory.  A call that
    fails may have created leading directories; the trace records the
    calls that succeed. *)
Definition os_makedirs (path : str) : M unit :=
  fun s =>
    if is_nil path then
      (Raise (OSError (lit "[Errno 2] No such file or directory: ''")), s)
    else
      match makedirs_outcome (trace s) path with
      | Some e => (Raise e, s)
      | None => emit (MakeDirs path) s
      end.

(** The block [with open(path, 'w', ...) as csvfile:] that writes [rows]. *)
Definition write_file (path : str) (rows : list (list str)) : M unit :=
  fun s =>
    match write_outcome (trace s) path rows with
    | Written => emit (WriteFile path rows) s
    | NotOpened e => (Raise e, s)
    | Interrupted e => (Raise e, snd (emit (PartialFile path) s))
    end.

Definition generate_csv_files (output_directory : str) : M unit :=
  a <- gets assignment_results ;;
  if Dict.is_empty a then raise NoAssignmentError
  else
    os_makedirs output_directory ;;;
    for_each (Dict.items a) (fun '(verifier, ballots) =>
      write_file (filename output_directory verifier) (file_rows ballots) ;;;
      print (generated verifier ballots)).

End Exporter.


(** ** Definitions used to state the properties *)

(** The error [random.sample] raises on a negative count. *)
Definition SampleError : Exn :=
  ValueError (lit "Sample larger than population or is negative").

(** Where the block of the verifier at index [i] starts, with [q] ballots
    per verifier and remainder [r]. *)
Definition start_of (q r i : Z) : Z := i * q + Z.min i r.

Definition extra_of (r i : Z) : Z := if i <? r then 1 else 0.

(** The block of the verifier at index [i]. *)
Definition block (q r : Z) (sel : list Identifier) (i : Z) : list Identifier :=
  py_slice sel (start_of q r i) (start_of q r (i + 1)).

(** The verifiers from index [i] on, each with its block. *)
Fixpoint blocks_at (q r : Z) (sel : list Identifier) (vs : list str) (i : Z)
  : list (str * list Identifier) :=
  match vs with
  | [] => []
  | v :: rest => (v, block q r sel i) :: blocks_at q r sel rest (i + 1)
  end.

(** The ballots drawn and shuffled for a request of [k] ballots. *)
Definition selected (ids : list Identifier) (k : Z) (t : tape)
  : list Identifier * tape :=
  let (s, t1) := sample_loop (Z.to_nat k) ids t in shuffle s t1.

(** [Picks pool s]: the list [s] takes its elements, in order, from
    distinct positions of [pool]; what [random.sample] may return. *)
Inductive Picks {A : Type} : list A -> list A -> Prop :=
| picks_nil (pool : list A) : Picks pool []
| picks_cons (pool : list A) (j : nat) (x : A) (s : list A) :
    nth_error pool j = Some x ->
    Picks (remove_nth j pool) s ->
    Picks pool (x :: s).

(** The count after clamping. *)
Definition clamped (ids : list Identifier) (count : Z) : Z :=
  Z.min count (len ids).

(** The lines printed by [assign_ballots]. *)
Definition warnings (ids : list Identifier) (count : Z) : list Event :=
  if len ids <? count then [Print (warning count (len ids))] else [].

(** The assignment a successful call builds. *)
Definition built (ids : list Identifier) (vs : list str) (count : Z)
    (t : tape) : Assignment :=
  let k := clamped ids count in
  Dict.set_all
    (blocks_at (k / len vs) (k mod len vs) (fst (selected ids k t)) vs 0)
    Dict.empty.

Definition str_eqb (a b : str) : bool :=
  if str_eq_dec a b then true else false.

(** The names of a list in the order of their first occurrence. *)
Fixpoint uniq (l : list str) : list str :=
  match l with
  | [] => []
  | x :: l' => x :: List.filter (fun y => negb (str_eqb x y)) (uniq l')
  end.

Definition mem (k : str) (l : list str) : bool := existsb (str_eqb k) l.

(** The files written in full by a run, in order. *)
Definition writes (tr : list Event) : list (str * list (list str)) :=
  flat_map (fun e => match e with
                     | WriteFile path rows => [(path, rows)]
                     | _ => []
                     end) tr.

(** What a file holds: the rows written in full, or an unknown part of
    the rows of a writing that was cut short. *)
Inductive FileContent : Type :=
| Complete (rows : list (list str))
| Partial.

(** What a run did to files, in order. *)
Definition disk_changes (tr : list Event) : list (str * FileContent) :=
  flat_map (fun e => match e with
                     | WriteFile path rows => [(path, Complete rows)]
                     | PartialFile path => [(path, Partial)]
                     | _ => []
                     end) tr.

(** The files on disk after a run that started on an empty directory: a
    later opening of a path replaces what was there. *)
Definition files_after (tr : list Event) : Dict.t FileContent :=
  Dict.set_all (disk_changes tr) Dict.empty.

(** A state with more effects done. *)
Definition extend (st : State) (events : list Event) : State :=
  mkState (ballot_ids st) (verifiers st) (assignment_results st) (rng st)
          (trace st ++ events).

(** A file system that refuses nothing, whatever was done before. *)
Definition accepts_all (F : FileSystem) : Prop :=
  (forall tr path, makedirs_outcome tr path = None) /\
  (forall tr path rows, write_outcome tr path rows = Written).

Definition permissive : FileSystem :=
  {| makedirs_outcome := fun _ _ => None;
     write_outcome := fun _ _ _ => Written |}.


(** The characters the file name keeps: alphanumeric, space, hyphen or
    underscore. *)
Definition allowed {U : UnicodeData} (c : char) : bool :=
  isalnum c || (c =? 32)%N || (c =? 45)%N || (c =? 95)%N.

(** What the loop over the items of the assignment does, in order. *)
Definition export_events {U : UnicodeData} (output_directory : str)
    (items : list (str * list Identifier)) : list Event :=
  flat_map (fun p => [WriteFile (filename output_directory (fst p))
                                (file_rows (snd p));
                      Print (generated (fst p) (snd p))]) items.

(** The summary record of one item of the assignment. *)
Definition summary_row (p : str * list Identifier) : SummaryRow :=
  mkSummaryRow (fst p) (len (snd p))
               (str_join (lit ", ") (List.map py_str (snd p))).

(** A character database that knows ASCII only. *)
Definition ascii_only : UnicodeData :=
  {| unicode_isalnum := fun _ => false; unicode_isspace := fun _ => false |}.

Definition five_ballots : list Identifier :=
  [IdStr (lit "A"); IdStr (lit "B"); IdStr (lit "C"); IdStr (lit "D");
   IdStr (lit "E")].

(** Five ballots, three verifiers, a generator with some draws. *)
Definition example_state : State :=
  mkState five_ballots [lit "X"; lit "Y"; lit "Z"] Dict.empty
          [3; 1; 4; 1; 5; 9; 2; 6]%nat [].

(** Two names that give the same file name. *)
Definition colliding_state : State :=
  mkState [IdInt 1; IdInt 2; IdInt 3] [lit "a/b"; lit "ab"] Dict.empty [] [].

(** A verifier file in which a name comes twice. *)
Definition duplicate_state : State :=
  mkState [IdInt 1; IdInt 2; IdInt 3; IdInt 4]
          [lit "Ana"; lit "Luis"; lit "Ana"] Dict.empty [] [].

(** ** Loading and the complete run *)

(** The two paths [__init__] stores in [self]. *)
Record Paths : Type := mkPaths {
  ballots_csv_path : str;
  verifiers_txt_path : str
}.

(** The defaults of [__init__]. *)
Definition default_paths : Paths :=
  mkPaths (lit "ballot_ids.csv") (lit "verifiers.txt").

(** What reading a path gives: the content, or the text of the
    [FileNotFoundError], or any other exception, raised at the opening or
    while the content is read and decoded. *)
Inductive Opened (A : Type) : Type :=
| Found (content : A)
| Missing (e : str)
| Unreadable (e : Exn).
Arguments Found {A} content.
Arguments Missing {A} e.
Arguments Unreadable {A} e.

(** What the program asks of its surroundings: the column
    [pd.read_csv(path, header=None, names=['id'])['id'].tolist()], the lines
    a text file yields when iterated, and the text
    [frame.to_string(index=False)] of a frame with a name and a count per
    row. *)
Record Host : Type := mkHost {
  read_csv_ids : str -> Opened (list Identifier);
  open_lines : str -> Opened (list str);
  to_string : list (str * Z) -> str
}.

(** The exceptions that leave [load_data] and [run_complete_assignment]:
    a missing file, a column asked of a frame without columns, or the
    exception of a method. *)
Inductive Failure : Type :=
| FileNotFoundError (e : str)
| KeyError
| Propagated (e : Exn).

Inductive Outcome (A : Type) : Type :=
| Done (a : A)
| Failed (f : Failure).
Arguments Done {A} a.
Arguments Failed {A} f.

Definition R (A : Type) : Type := State -> Outcome A * State.

Definition done {A} (a : A) : R A := fun s => (Done a, s).

Definition fail {A} (f : Failure) : R A := fun s => (Failed f, s).

Definition and_then {A B} (m : R A) (k : A -> R B) : R B :=
  fun s =>
    match m s with
    | (Done a, s') => k a s'
    | (Failed f, s') => (Failed f, s')
    end.

(** A call of one of the methods above. *)
Definition call {A} (m : M A) : R A :=
  fun s =>
    match m s with
    | (Ok a, s') => (Done a, s')
    | (Raise e, s') => (Failed (Propagated e), s')
    end.

Definition opened {A} (o : Opened A) : R A :=
  match o with
  | Found content => done content
  | Missing e => fail (FileNotFoundError e)
  | Unreadable e => fail (Propagated e)
  end.

Notation "x <-- m ;; k" := (and_then m (fun x => k))
  (at level 61, m at next level, right associativity).
Notation "m ;;;; k" := (and_then m (fun _ => k))
  (at level 61, right associativity).

Definition set_ballot_ids (ids : list Identifier) : M unit :=
  fun s => (Ok tt, mkState ids (verifiers s) (assignment_results s)
                           (rng s) (trace s)).

Definition set_verifiers (vs : list str) : M unit :=
  fun s => (Ok tt, mkState (ballot_ids s) vs (assignment_results s)
                           (rng s) (trace s)).

(** [try: body except FileNotFoundError as e: print(...); raise] *)
Definition except_file_not_found (body : R unit) : R unit :=
  fun s =>
    match body s with
    | (Failed (FileNotFoundError e), s') =>
        (Failed (FileNotFoundError e),
         snd (print (lit "Error loading files: " ++ e) s'))
    | r => r
    end.

Definition newline : str := [10%N].


Section Loader.

Context {U : UnicodeData} {F : FileSystem}.

(** [s.lstrip()] *)
Fixpoint lstrip (s : str) : str :=
  match s with
  | [] => []
  | c :: s' => if isspace c then lstrip s' else s
  end.

(** [s.strip()] *)
Definition strip (s : str) : str := rstrip (lstrip s).

(** [[line.strip() for line in file if line.strip()]] *)
Fixpoint read_verifiers (lines : list str) : list str :=
  match lines with
  | [] => []
  | line :: rest =>
      if is_nil (strip line) then read_verifiers rest
      else strip line :: read_verifiers rest
  end.

Definition load_data (host : Host) (paths : Paths) : R unit :=
  except_file_not_found (
    ids <-- opened (read_csv_ids host (ballots_csv_path paths)) ;;
    call (set_ballot_ids ids) ;;;;
    call (print (lit "Loaded " ++ str_of_int (len ids) ++
                 lit " ballot IDs")) ;;;;
    lines <-- opened (open_lines host (verifiers_txt_path paths)) ;;
    let vs := read_verifiers lines in
    call (set_verifiers vs) ;;;;
    call (print (lit "Loaded " ++ str_of_int (len vs) ++ lit " verifiers"))).



End Loader.


(** A host with one ballot file and one verifier file. *)
Definition example_host : Host :=
  mkHost
    (fun path => if str_eq_dec path (lit "ballot_ids.csv")
                 then Found five_ballots
                 else Missing (lit "[Errno 2] No such file or directory"))
    (fun path => if str_eq_dec path (lit "verifiers.txt")
                 then Found [lit "  X " ++ newline; newline;
                             lit "Y" ++ newline; lit " Z"]
                 else Missing (lit "[Errno 2] No such file or directory"))
    (fun rows => List.concat (List.map (fun r => fst r ++ newline) rows)).

(** * Verification *)

(** ** Lists, slices and permutations *)

Lemma len_nonneg {A} (l : list A) : 0 <= len l.
Proof. unfold len. lia. Qed.

Lemma len_app {A} (l1 l2 : list A) : len (l1 ++ l2) = len l1 + len l2.
Proof. unfold len. rewrite length_app. lia. Qed.

Lemma len_cons {A} (x : A) (l : list A) : len (x :: l) = 1 + len l.
Proof. unfold len. cbn [List.length]. lia. Qed.

Lemma is_nil_true {A} (l : list A) : is_nil l = true <-> l = [].
Proof. destruct l; simpl; split; congruence. Qed.

Lemma firstn_skipn_glue {A} (x y : nat) (m : list A) :
  firstn x m ++ firstn y (skipn x m) = firstn (x + y) m.
Proof.
  revert m. induction x as [|x IH]; intros m; simpl.
  - reflexivity.
  - destruct m as [|a m]; simpl.
    + now rewrite firstn_nil.
    + now rewrite IH.
Qed.

Lemma skipn_skipn_add {A} (x y : nat) (l : list A) :
  skipn x (skipn y l) = skipn (y + x) l.
Proof.
  revert l. induction y as [|y IH]; intros l; simpl.
  - reflexivity.
  - destruct l as [|a l]; simpl; [now rewrite skipn_nil | apply IH].
Qed.

Lemma slice_index_nonneg (n i : Z) : 0 <= i -> slice_index n i = Z.min i n.
Proof. intros H. unfold slice_index. destruct (Z.ltb_spec i 0); lia. Qed.

Lemma py_slice_inside {A} (l : list A) (s e : Z) :
  0 <= s <= e -> e <= len l ->
  py_slice l s e = firstn (Z.to_nat (e - s)) (skipn (Z.to_nat s) l).
Proof.
  intros Hs He. unfold py_slice.
  rewrite !slice_index_nonneg by lia.
  now rewrite !Z.min_l by lia.
Qed.

Lemma py_slice_len {A} (l : list A) (s e : Z) :
  0 <= s <= e -> e <= len l -> len (py_slice l s e) = e - s.
Proof.
  intros Hs He. rewrite py_slice_inside by assumption.
  unfold len in *. rewrite length_firstn, length_skipn. lia.
Qed.

Lemma py_slice_glue {A} (l : list A) (a b c : Z) :
  0 <= a <= b -> b <= c ->
  py_slice l a b ++ py_slice l b c = py_slice l a c.
Proof.
  intros Hab Hbc. unfold py_slice.
  rewrite !slice_index_nonneg by lia.
  pose proof (len_nonneg l) as Hl.
  set (a' := Z.min a (len l)). set (b' := Z.min b (len l)).
  set (c' := Z.min c (len l)).
  assert (Ha : 0 <= a' <= b') by (unfold a', b'; lia).
  assert (Hb : b' <= c') by (unfold b', c'; lia).
  replace (Z.to_nat b') with (Z.to_nat a' + Z.to_nat (b' - a'))%nat by lia.
  rewrite <- skipn_skipn_add, firstn_skipn_glue.
  f_equal. lia.
Qed.

Lemma py_slice_empty {A} (l : list A) (a : Z) : py_slice l a a = [].
Proof. unfold py_slice. now rewrite Z.sub_diag. Qed.

Lemma py_slice_all {A} (l : list A) : py_slice l 0 (len l) = l.
Proof.
  rewrite py_slice_inside by (pose proof (len_nonneg l); lia).
  rewrite Z.sub_0_r. simpl skipn. unfold len. rewrite Nat2Z.id.
  apply firstn_all.
Qed.

Lemma remove_nth_perm {A} (j : nat) (l : list A) (x : A) :
  nth_error l j = Some x -> Permutation l (x :: remove_nth j l).
Proof.
  revert j. induction l as [|a l IH]; intros [|j] H; simpl in *;
    try discriminate.
  - injection H as ->. reflexivity.
  - rewrite (IH _ H) at 1. apply perm_swap.
Qed.

Lemma list_set_perm {A} (i : nat) (v a : A) (x : list A) :
  nth_error x i = Some a -> Permutation (list_set i v x) (v :: remove_nth i x).
Proof.
  revert i. induction x as [|b x IH]; intros [|i] H; simpl in *;
    try discriminate.
  - reflexivity.
  - rewrite (IH _ H). apply perm_swap.
Qed.

Lemma list_set_same {A} (i : nat) (a : A) (x : list A) :
  nth_error x i = Some a -> list_set i a x = x.
Proof.
  revert i. induction x as [|b x IH]; intros [|i] H; simpl in *;
    try discriminate.
  - now injection H as ->.
  - now rewrite IH.
Qed.

Lemma list_set_twice {A} (i : nat) (a b : A) (x : list A) :
  list_set i a (list_set i b x) = list_set i a x.
Proof.
  revert i. induction x as [|c x IH]; intros [|i]; simpl; auto.
  now rewrite IH.
Qed.

Lemma nth_error_list_set_other {A} (i j : nat) (v : A) (x : list A) :
  i <> j -> nth_error (list_set i v x) j = nth_error x j.
Proof.
  revert i j. induction x as [|c x IH]; intros [|i] [|j] H; simpl; auto.
  contradiction.
Qed.

Lemma swap_perm {A} (i j : nat) (x : list A) : Permutation (swap i j x) x.
Proof.
  unfold swap.
  destruct (nth_error x i) as [a|] eqn:Hi; [|reflexivity].
  destruct (nth_error x j) as [b|] eqn:Hj; [|reflexivity].
  destruct (Nat.eq_dec i j) as [->|Hne].
  - rewrite list_set_twice. rewrite Hi in Hj. injection Hj as ->.
    now rewrite list_set_same.
  - assert (HL : nth_error (list_set i b x) j = Some b)
      by now rewrite nth_error_list_set_other.
    rewrite (list_set_perm _ _ _ _ HL).
    assert (Hrem : Permutation (remove_nth j (list_set i b x))
                               (remove_nth i x)).
    { apply Permutation_cons_inv with (a := b).
      rewrite <- (remove_nth_perm _ _ _ HL).
      apply (list_set_perm _ _ _ _ Hi). }
    rewrite Hrem. symmetry. now apply remove_nth_perm.
Qed.

Lemma shuffle_loop_perm {A} (i : nat) (x : list A) (t : tape) :
  Permutation (fst (shuffle_loop i x t)) x.
Proof.
  revert x t. induction i as [|i IH]; intros x t.
  - reflexivity.
  - cbn [shuffle_loop]. destruct (randbelow (S (S i)) t) as [j t1].
    apply perm_trans with (swap (S i) j x); [apply IH | apply swap_perm].
Qed.

Lemma shuffle_perm {A} (x : list A) (t : tape) :
  Permutation (fst (shuffle x t)) x.
Proof. apply shuffle_loop_perm. Qed.

Lemma randbelow_lt (n : nat) (t : tape) :
  (0 < n)%nat -> (fst (randbelow n t) < n)%nat.
Proof.
  intros Hn. destruct t as [|d t]; simpl; [assumption|].
  apply Nat.mod_upper_bound. lia.
Qed.

Lemma remove_nth_length {A} (j : nat) (l : list A) :
  (j < List.length l)%nat ->
  List.length (remove_nth j l) = (List.length l - 1)%nat.
Proof.
  revert j. induction l as [|a l IH]; intros [|j] H; simpl in *; try lia.
  rewrite IH by lia. lia.
Qed.

(** [random.sample] returns [k] elements, chosen at distinct positions of the
    population: together with the elements left in the pool they make up the
    population again. *)
Lemma sample_loop_spec {A} (k : nat) (pool : list A) (t : tape) :
  (k <= List.length pool)%nat ->
  List.length (fst (sample_loop k pool t)) = k /\
  exists rest, Permutation (fst (sample_loop k pool t) ++ rest) pool.
Proof.
  revert pool t. induction k as [|k IH]; intros pool t Hk.
  - simpl. split; [reflexivity|]. exists pool. reflexivity.
  - cbn [sample_loop].
    pose proof (randbelow_lt (List.length pool) t ltac:(lia)) as Hj.
    destruct (randbelow (List.length pool) t) as [j t1]. simpl in Hj.
    destruct (nth_error pool j) as [x|] eqn:Hx.
    + pose proof (remove_nth_length j pool Hj) as Hlen.
      destruct (IH (remove_nth j pool) t1 ltac:(lia)) as [IHl [rest IHp]].
      destruct (sample_loop k (remove_nth j pool) t1) as [res t2].
      simpl in *. split; [now rewrite IHl|].
      exists rest. rewrite (remove_nth_perm _ _ _ Hx).
      now apply perm_skip.
    + apply nth_error_None in Hx. lia.
Qed.

(** ** The dictionary *)

Module DictFacts.
Import Dict.

Section Facts.
Context {V : Type}.
Implicit Types (k : str) (v : V) (d : Dict.t V).

Lemma set_all_app (l1 l2 : list (str * V)) d :
  set_all (l1 ++ l2) d = set_all l2 (set_all l1 d).
Proof. apply fold_left_app. Qed.

Lemma get_set_eq k v d : get k (set k v d) = Some v.
Proof.
  induction d as [|[k' v'] d IH]; simpl.
  - destruct (str_eq_dec k k); congruence.
  - destruct (str_eq_dec k k') as [->|Hne]; simpl.
    + destruct (str_eq_dec k' k'); congruence.
    + destruct (str_eq_dec k k'); congruence.
Qed.

Lemma get_set_neq k k' v d : k <> k' -> get k (set k' v d) = get k d.
Proof.
  intros Hne. induction d as [|[k2 v2] d IH]; simpl.
  - destruct (str_eq_dec k k'); congruence.
  - destruct (str_eq_dec k' k2) as [->|Hne2]; simpl.
    + destruct (str_eq_dec k k2); congruence.
    + destruct (str_eq_dec k k2); congruence.
Qed.

Lemma keys_set_old k v d : In k (keys d) -> keys (set k v d) = keys d.
Proof.
  induction d as [|[k' v'] d IH]; simpl; intros H; [contradiction|].
  destruct (str_eq_dec k k') as [->|Hne]; simpl; [reflexivity|].
  f_equal. apply IH. destruct H; congruence.
Qed.

Lemma keys_set_new k v d : ~ In k (keys d) -> set k v d = d ++ [(k, v)].
Proof.
  induction d as [|[k' v'] d IH]; simpl; intros H; [reflexivity|].
  destruct (str_eq_dec k k') as [->|Hne]; [tauto|].
  f_equal. apply IH. tauto.
Qed.

Lemma in_keys_dec k d : {In k (keys d)} + {~ In k (keys d)}.
Proof. apply in_dec, str_eq_dec. Qed.

Lemma get_set_all_out k (kvs : list (str * V)) d :
  ~ In k (List.map fst kvs) -> get k (set_all kvs d) = get k d.
Proof.
  revert d. induction kvs as [|[k' v'] kvs IH]; intros d H; simpl in *.
  - reflexivity.
  - rewrite IH by tauto. apply get_set_neq. intros ->. tauto.
Qed.

(** The value under [k] is the one assigned last. *)
Lemma get_set_all_last k v (l1 l2 : list (str * V)) d :
  ~ In k (List.map fst l2) ->
  get k (set_all (l1 ++ (k, v) :: l2) d) = Some v.
Proof.
  intros H. rewrite set_all_app. simpl.
  rewrite get_set_all_out by assumption. apply get_set_eq.
Qed.

(** Every value of the dictionary was assigned, or was there before. *)
Lemma get_set_all_in k v (kvs : list (str * V)) d :
  get k (set_all kvs d) = Some v -> In (k, v) kvs \/ get k d = Some v.
Proof.
  revert d. induction kvs as [|[k' v'] kvs IH]; intros d H; simpl in *.
  - now right.
  - destruct (IH _ H) as [Hin|Hget]; [now left; right|].
    destruct (str_eq_dec k k') as [->|Hne].
    + rewrite get_set_eq in Hget. injection Hget as ->. now left; left.
    + rewrite get_set_neq in Hget by assumption. now right.
Qed.

Lemma set_all_fresh (kvs : list (str * V)) d :
  NoDup (List.map fst kvs) ->
  (forall k, In k (List.map fst kvs) -> ~ In k (keys d)) ->
  set_all kvs d = d ++ kvs.
Proof.
  revert d. induction kvs as [|[k' v'] kvs IH]; intros d Hnd Hfresh; simpl in *.
  - now rewrite app_nil_r.
  - inversion Hnd as [|? ? Hk' Hnd']; subst.
    rewrite keys_set_new by (apply Hfresh; now left).
    rewrite IH; [now rewrite <- app_assoc | assumption |].
    intros k Hk. unfold keys. rewrite map_app, in_app_iff. simpl.
    intros [Hd|[<-|[]]]; [|tauto].
    apply (Hfresh k); [now right | assumption].
Qed.

Lemma get_in k v d : get k d = Some v -> In (k, v) d.
Proof.
  induction d as [|[k' v'] d IH]; simpl; [discriminate|].
  destruct (str_eq_dec k k') as [->|Hne]; intros H.
  - injection H as ->. now left.
  - right. now apply IH.
Qed.

End Facts.

(** Overwriting a key drops the list it held: the lists of the dictionary
    and the dropped ones together are all the lists ever assigned. *)
Lemma values_set {A} k (v : list A) (d : Dict.t (list A)) :
  exists dropped,
    Permutation (List.concat (values (set k v d)) ++ dropped)
                (List.concat (values d) ++ v).
Proof.
  induction d as [|[k' v'] d [dropped IH]]; simpl.
  - exists []. now rewrite !app_nil_r.
  - destruct (str_eq_dec k k') as [->|Hne]; simpl.
    + exists v'. rewrite (Permutation_app_comm _ v'), <- app_assoc.
      apply Permutation_app_head, Permutation_app_comm.
    + exists dropped. rewrite <- !app_assoc. now apply Permutation_app_head.
Qed.

Lemma values_set_all {A} (kvs : list (str * list A)) (d : Dict.t (list A)) :
  exists dropped,
    Permutation (List.concat (values (set_all kvs d)) ++ dropped)
                (List.concat (values d) ++ List.concat (List.map snd kvs)).
Proof.
  revert d. induction kvs as [|[k v] kvs IH]; intros d; simpl.
  - exists []. reflexivity.
  - destruct (IH (set k v d)) as [dr1 H1].
    destruct (values_set k v d) as [dr2 H2].
    exists (dr1 ++ dr2). rewrite app_assoc, H1, <- app_assoc.
    rewrite (Permutation_app_comm _ dr2), app_assoc, H2.
    now rewrite <- app_assoc.
Qed.

End DictFacts.


(** ** The partition into blocks *)

Lemma start_of_succ (q r i : Z) :
  start_of q r (i + 1) = start_of q r i + q + extra_of r i.
Proof.
  unfold start_of, extra_of. destruct (Z.ltb_spec i r); lia.
Qed.

Lemma start_of_mono (q r i j : Z) :
  0 <= q -> 0 <= i <= j -> start_of q r i <= start_of q r j.
Proof. intros Hq Hij. unfold start_of. nia. Qed.

Lemma start_of_nonneg (q r i : Z) :
  0 <= q -> 0 <= r -> 0 <= i -> 0 <= start_of q r i.
Proof. intros Hq Hr Hi. unfold start_of. nia. Qed.

Section Partition.

Variables (q r : Z) (sel : list Identifier).

Lemma assign_loop_blocks (vs : list str) (i : Z) (a : Assignment) :
  assign_loop q r sel vs i (start_of q r i) a
  = Dict.set_all (blocks_at q r sel vs i) a.
Proof.
  revert i a. induction vs as [|v vs IH]; intros i a; simpl.
  - reflexivity.
  - fold (extra_of r i). rewrite <- start_of_succ. apply IH.
Qed.

Lemma assign_loop_blocks0 (vs : list str) (a : Assignment) :
  0 <= r ->
  assign_loop q r sel vs 0 0 a = Dict.set_all (blocks_at q r sel vs 0) a.
Proof.
  intros Hr. rewrite <- assign_loop_blocks. f_equal.
  unfold start_of. lia.
Qed.

Lemma blocks_at_app (v1 v2 : list str) (i : Z) :
  blocks_at q r sel (v1 ++ v2) i
  = blocks_at q r sel v1 i ++ blocks_at q r sel v2 (i + len v1).
Proof.
  revert i. induction v1 as [|v v1 IH]; intros i; simpl.
  - f_equal. unfold len. simpl. lia.
  - rewrite IH, len_cons. do 3 f_equal. lia.
Qed.

Lemma blocks_at_keys (vs : list str) (i : Z) :
  List.map fst (blocks_at q r sel vs i) = vs.
Proof.
  revert i. induction vs as [|v vs IH]; intros i; simpl; [|rewrite IH];
    reflexivity.
Qed.

Lemma blocks_at_in (vs : list str) (i : Z) v b :
  In (v, b) (blocks_at q r sel vs i) ->
  exists j, i <= j < i + len vs /\ b = block q r sel j.
Proof.
  revert i. induction vs as [|v' vs IH]; intros i; simpl; [contradiction|].
  rewrite len_cons. pose proof (len_nonneg vs).
  intros [Heq|Hin].
  - injection Heq as _ <-. exists i. split; [lia | reflexivity].
  - destruct (IH _ Hin) as [j [Hj ->]]. exists j. split; [lia | reflexivity].
Qed.

Lemma blocks_at_concat (vs : list str) (i : Z) :
  0 <= q -> 0 <= r -> 0 <= i ->
  List.concat (List.map snd (blocks_at q r sel vs i))
  = py_slice sel (start_of q r i) (start_of q r (i + len vs)).
Proof.
  intros Hq Hr. revert i. induction vs as [|v vs IH]; intros i Hi; simpl.
  - replace (i + len []) with i by (unfold len; simpl; lia).
    now rewrite py_slice_empty.
  - rewrite IH by lia. rewrite len_cons. pose proof (len_nonneg vs).
    unfold block. replace (i + (1 + len vs)) with (i + 1 + len vs) by lia.
    apply py_slice_glue.
    + split; [now apply start_of_nonneg | apply start_of_mono; lia].
    + apply start_of_mono; lia.
Qed.

End Partition.

(** With [count] ballots for [n] verifiers, every block lies inside the
    selection and the blocks together are the whole of it. *)
Lemma quot_rem_facts (count n : Z) :
  0 <= count -> 0 < n ->
  0 <= count / n /\ 0 <= count mod n < n /\
  count = n * (count / n) + count mod n.
Proof.
  intros Hc Hn. split; [apply Z.div_pos; lia|].
  split; [apply Z.mod_pos_bound; lia | apply Z.div_mod; lia].
Qed.

Lemma start_of_last (count n : Z) :
  0 <= count -> 0 < n ->
  start_of (count / n) (count mod n) n = count.
Proof.
  intros Hc Hn. destruct (quot_rem_facts count n Hc Hn) as [Hq [Hr Heq]].
  unfold start_of. lia.
Qed.

Lemma block_len (count n : Z) (sel : list Identifier) (i : Z) :
  0 <= count -> 0 < n -> len sel = count -> 0 <= i < n ->
  len (block (count / n) (count mod n) sel i)
  = count / n + extra_of (count mod n) i.
Proof.
  intros Hc Hn Hsel Hi.
  destruct (quot_rem_facts count n Hc Hn) as [Hq [Hr Heq]].
  unfold block. rewrite py_slice_len.
  - rewrite start_of_succ. lia.
  - split; [apply start_of_nonneg; lia | apply start_of_mono; lia].
  - rewrite Hsel. rewrite <- (start_of_last count n Hc Hn) at 3.
    apply start_of_mono; lia.
Qed.

Lemma total_assigned_concat (a : Assignment) :
  total_assigned a = len (List.concat (Dict.values a)).
Proof.
  unfold total_assigned. induction (Dict.values a) as [|v vs IH]; simpl.
  - reflexivity.
  - now rewrite len_app, IH.
Qed.

(** ** What a call of [assign_ballots] computes *)

Lemma selected_spec (ids : list Identifier) (k : Z) (t : tape) :
  0 <= k <= len ids ->
  len (fst (selected ids k t)) = k /\
  exists rest, Permutation (fst (selected ids k t) ++ rest) ids.
Proof.
  intros Hk. unfold selected.
  destruct (sample_loop_spec (Z.to_nat k) ids t) as [Hl [rest Hp]];
    [unfold len in Hk; lia|].
  destruct (sample_loop (Z.to_nat k) ids t) as [s t1]. simpl in *.
  pose proof (shuffle_perm s t1) as Hs.
  split.
  - unfold len. rewrite (Permutation_length Hs), Hl. lia.
  - exists rest. now rewrite Hs.
Qed.

(** The tape reaches every outcome of the two library calls: any list drawn
    from distinct positions of the population, in any order, is the
    selection for some tape. *)
Lemma sample_loop_complete {A} (pool s : list A) :
  Picks pool s ->
  forall t2, exists t, sample_loop (List.length s) pool (t ++ t2) = (s, t2).
Proof.
  induction 1 as [pool | pool j x s Hx _ IH]; intros t2.
  - now exists [].
  - destruct (IH t2) as [t Ht]. exists (j :: t).
    cbn [sample_loop List.length app randbelow].
    assert (Hj : (j < List.length pool)%nat)
      by (apply nth_error_Some; congruence).
    rewrite Nat.mod_small by assumption. now rewrite Hx, Ht.
Qed.

Lemma sample_loop_picks {A} (k : nat) (pool : list A) (t : tape) :
  (k <= List.length pool)%nat -> Picks pool (fst (sample_loop k pool t)).
Proof.
  revert pool t. induction k as [|k IH]; intros pool t Hk; [constructor|].
  cbn [sample_loop].
  pose proof (randbelow_lt (List.length pool) t ltac:(lia)) as Hj.
  destruct (randbelow (List.length pool) t) as [j t1]. simpl in Hj.
  destruct (nth_error pool j) as [x|] eqn:Hx; [|constructor].
  pose proof (remove_nth_length j pool Hj) as Hlen.
  specialize (IH (remove_nth j pool) t1 ltac:(lia)).
  destruct (sample_loop k (remove_nth j pool) t1) as [res t2].
  now apply picks_cons with j.
Qed.

Lemma swap_same {A} (i : nat) (x : list A) : swap i i x = x.
Proof.
  unfold swap. destruct (nth_error x i) as [a|] eqn:Hi; [|reflexivity].
  now rewrite list_set_twice, list_set_same.
Qed.

Lemma shuffle_loop_identity {A} (i : nat) (x : list A) (t2 : tape) :
  exists t, shuffle_loop i x (t ++ t2) = (x, t2).
Proof.
  induction i as [|i [t IH]].
  - now exists [].
  - exists (S i :: t). cbn [shuffle_loop app randbelow].
    rewrite Nat.mod_small by lia. now rewrite swap_same.
Qed.

Lemma selected_complete (ids s : list Identifier) :
  Picks ids s -> exists t, selected ids (len s) t = (s, []).
Proof.
  intros H.
  destruct (shuffle_loop_identity (List.length s - 1) s []) as [t2 H2].
  destruct (sample_loop_complete ids s H (t2 ++ [])) as [t1 H1].
  exists (t1 ++ t2 ++ []). unfold selected, len.
  rewrite Nat2Z.id, H1. exact H2.
Qed.

Lemma assign_ballots_run (st : State) (count : Z) :
  ballot_ids st <> [] -> verifiers st <> [] -> 0 <= count ->
  assign_ballots count st =
  (Ok (built (ballot_ids st) (verifiers st) count (rng st)),
   mkState (ballot_ids st) (verifiers st)
           (built (ballot_ids st) (verifiers st) count (rng st))
           (snd (selected (ballot_ids st) (clamped (ballot_ids st) count)
                          (rng st)))
           (trace st ++ warnings (ballot_ids st) count)).
Proof.
  destruct st as [ids vs a t tr].
  cbn [ballot_ids verifiers rng trace]. intros Hids Hvs Hc.
  assert (Hi : is_nil ids = false)
    by (destruct ids; [congruence | reflexivity]).
  assert (Hv : is_nil vs = false) by (destruct vs; [congruence | reflexivity]).
  assert (HVS : 0 < len vs).
  { destruct vs; [congruence|]. rewrite len_cons.
    pose proof (len_nonneg vs). lia. }
  pose proof (len_nonneg ids) as Hlen.
  unfold assign_ballots, bind, gets.
  cbn [ballot_ids verifiers]. rewrite Hi, Hv. cbn [orb].
  unfold built, warnings, clamped, selected.
  destruct (Z.ltb_spec (len ids) count) as [Hlt|Hge].
  - rewrite Z.min_r by lia.
    unfold print, emit, ret, random_sample, random_shuffle, with_rng,
      set_assignment_results.
    cbn [ballot_ids verifiers rng trace assignment_results].
    replace ((len ids <? 0) || (len ids <? len ids)) with false
      by (symmetry; apply orb_false_iff; split; apply Z.ltb_ge; lia).
    cbn [ballot_ids verifiers rng trace assignment_results].
    destruct (sample_loop (Z.to_nat (len ids)) ids t) as [s t1].
    cbn [ballot_ids verifiers rng trace assignment_results].
    destruct (shuffle s t1) as [s' t2].
    cbn [ballot_ids verifiers rng trace assignment_results fst snd].
    rewrite assign_loop_blocks0 by (apply Z.mod_pos_bound; lia).
    reflexivity.
  - rewrite Z.min_l by lia.
    unfold ret, random_sample, random_shuffle, with_rng,
      set_assignment_results.
    replace ((count <? 0) || (len ids <? count)) with false
      by (symmetry; apply orb_false_iff; split; apply Z.ltb_ge; lia).
    cbn [ballot_ids verifiers rng trace assignment_results].
    destruct (sample_loop (Z.to_nat count) ids t) as [s t1].
    cbn [ballot_ids verifiers rng trace assignment_results].
    destruct (shuffle s t1) as [s' t2].
    cbn [ballot_ids verifiers rng trace assignment_results fst snd].
    rewrite assign_loop_blocks0 by (apply Z.mod_pos_bound; lia).
    rewrite app_nil_r. reflexivity.
Qed.

Lemma assign_ballots_not_loaded (st : State) (count : Z) :
  ballot_ids st = [] \/ verifiers st = [] ->
  assign_ballots count st = (Raise NotLoadedError, st).
Proof.
  intros H. unfold assign_ballots, bind, gets.
  replace (is_nil (ballot_ids st) || is_nil (verifiers st)) with true;
    [reflexivity|].
  symmetry. apply orb_true_iff. rewrite !is_nil_true. exact H.
Qed.

Lemma assign_ballots_negative (st : State) (count : Z) :
  ballot_ids st <> [] -> verifiers st <> [] -> count < 0 ->
  assign_ballots count st = (Raise SampleError, st).
Proof.
  intros Hids Hvs Hc.
  assert (Hi : is_nil (ballot_ids st) = false)
    by (destruct (ballot_ids st); [congruence | reflexivity]).
  assert (Hv : is_nil (verifiers st) = false)
    by (destruct (verifiers st); [congruence | reflexivity]).
  pose proof (len_nonneg (ballot_ids st)) as Hlen.
  unfold assign_ballots, bind, gets. rewrite Hi, Hv. cbn [orb].
  replace (len (ballot_ids st) <? count) with false
    by (symmetry; apply Z.ltb_ge; lia).
  unfold ret, random_sample.
  replace (count <? 0) with true by (symmetry; apply Z.ltb_lt; lia).
  reflexivity.
Qed.

Lemma list_nil_dec {A} (l : list A) : {l = []} + {l <> []}.
Proof. destruct l; [now left | right; discriminate]. Qed.

(** A call that returns had data to work on and a count that is not
    negative, and returns the assignment [built] describes. *)
Lemma assign_ballots_inv (st : State) (count : Z) (a : Assignment)
    (st' : State) :
  assign_ballots count st = (Ok a, st') ->
  ballot_ids st <> [] /\ verifiers st <> [] /\ 0 <= count /\
  a = built (ballot_ids st) (verifiers st) count (rng st) /\
  st' = mkState (ballot_ids st) (verifiers st) a
          (snd (selected (ballot_ids st) (clamped (ballot_ids st) count)
                         (rng st)))
          (trace st ++ warnings (ballot_ids st) count).
Proof.
  intros H.
  destruct (list_nil_dec (ballot_ids st)) as [Hi|Hi];
    [rewrite assign_ballots_not_loaded in H by (now left); discriminate|].
  destruct (list_nil_dec (verifiers st)) as [Hv|Hv];
    [rewrite assign_ballots_not_loaded in H by (now right); discriminate|].
  destruct (Z_lt_le_dec count 0) as [Hc|Hc];
    [rewrite assign_ballots_negative in H by assumption; discriminate|].
  rewrite assign_ballots_run in H by assumption.
  injection H as Ha Hst. subst a. repeat split; try assumption.
  now symmetry.
Qed.

Lemma assign_ballots_returns (st : State) (count : Z) :
  ballot_ids st <> [] -> verifiers st <> [] -> 0 <= count ->
  exists a st', assign_ballots count st = (Ok a, st').
Proof.
  intros Hi Hv Hc. rewrite assign_ballots_run by assumption.
  eexists. eexists. reflexivity.
Qed.

Lemma clamped_range (ids : list Identifier) (count : Z) :
  0 <= count -> 0 <= clamped ids count <= len ids.
Proof. intros H. unfold clamped. pose proof (len_nonneg ids). lia. Qed.

Lemma verifiers_pos (vs : list str) : vs <> [] -> 0 < len vs.
Proof.
  intros H. destruct vs; [congruence|]. rewrite len_cons.
  pose proof (len_nonneg vs). lia.
Qed.

Lemma sel_len (ids : list Identifier) (count : Z) (t : tape) :
  0 <= count ->
  len (fst (selected ids (clamped ids count) t)) = clamped ids count.
Proof. intros H. now apply selected_spec, clamped_range. Qed.

Lemma sel_from_ids (ids : list Identifier) (count : Z) (t : tape) :
  0 <= count ->
  exists rest,
    Permutation (fst (selected ids (clamped ids count) t) ++ rest) ids.
Proof. intros H. now apply selected_spec, clamped_range. Qed.

(** The facts about the split that every claim on the assignment uses. *)
Section Built.

Variables (ids : list Identifier) (vs : list str) (count : Z) (t : tape).
Hypothesis vs_loaded : vs <> [].
Hypothesis count_nonneg : 0 <= count.

Let k := clamped ids count.
Let n := len vs.
Let sel := fst (selected ids k t).

Lemma built_blocks :
  built ids vs count t
  = Dict.set_all (blocks_at (k / n) (k mod n) sel vs 0) Dict.empty.
Proof. reflexivity. Qed.

Lemma blocks_concat :
  List.concat (List.map snd (blocks_at (k / n) (k mod n) sel vs 0)) = sel.
Proof.
  pose proof (clamped_range ids count count_nonneg) as Hk.
  pose proof (verifiers_pos vs vs_loaded) as Hn.
  destruct (quot_rem_facts k n) as [Hq [Hr Heq]];
    [unfold k; lia | unfold n; lia |].
  rewrite blocks_at_concat by lia.
  replace (0 + len vs) with n by (unfold n; lia).
  rewrite start_of_last by (unfold k, n; lia).
  replace (start_of (k / n) (k mod n) 0) with 0 by (unfold start_of; lia).
  pose proof (sel_len ids count t count_nonneg) as Hs.
  fold k in Hs. fold sel in Hs.
  transitivity (py_slice sel 0 (len sel));
    [f_equal; symmetry; exact Hs | apply py_slice_all].
Qed.

(** Every list of the assignment is one of the blocks. *)
Lemma built_get_block (v : str) (b : list Identifier) :
  Dict.get v (built ids vs count t) = Some b ->
  exists j, 0 <= j < n /\ b = block (k / n) (k mod n) sel j.
Proof.
  rewrite built_blocks. intros H.
  apply DictFacts.get_set_all_in in H. destruct H as [H|H]; [|discriminate].
  apply blocks_at_in in H. destruct H as [j [Hj ->]].
  exists j. split; [unfold n; lia | reflexivity].
Qed.

(** The verifier at index [i] holds block [i], unless its name comes
    again later in the list. *)
Lemma built_get_last (i : nat) (v : str) :
  nth_error vs i = Some v -> ~ In v (skipn (S i) vs) ->
  Dict.get v (built ids vs count t)
  = Some (block (k / n) (k mod n) sel (Z.of_nat i)).
Proof.
  intros Hi Hlast. rewrite built_blocks.
  destruct (nth_error_split vs i Hi) as [l1 [l2 [Hvs Hl1]]].
  rewrite Hvs in Hlast.
  replace (S i) with (List.length (l1 ++ [v])) in Hlast
    by (rewrite length_app; simpl; lia).
  replace (l1 ++ v :: l2) with ((l1 ++ [v]) ++ l2) in Hlast
    by (now rewrite <- app_assoc).
  rewrite skipn_app, skipn_all, Nat.sub_diag in Hlast. simpl in Hlast.
  rewrite Hvs, blocks_at_app. cbn [blocks_at].
  replace (0 + len l1) with (Z.of_nat i) by (unfold len; lia).
  apply DictFacts.get_set_all_last.
  now rewrite blocks_at_keys.
Qed.

Lemma built_total_le : total_assigned (built ids vs count t) <= k.
Proof.
  rewrite total_assigned_concat, built_blocks.
  destruct (DictFacts.values_set_all
              (blocks_at (k / n) (k mod n) sel vs 0) Dict.empty)
    as [dropped Hp].
  simpl in Hp. rewrite blocks_concat in Hp.
  apply Permutation_length in Hp. rewrite length_app in Hp.
  pose proof (sel_len ids count t count_nonneg) as Hs.
  fold k in Hs. fold sel in Hs. unfold len in *. lia.
Qed.

Lemma built_values_from_sel :
  exists dropped,
    Permutation
      (List.concat (Dict.values (built ids vs count t)) ++ dropped) sel.
Proof.
  rewrite built_blocks.
  destruct (DictFacts.values_set_all
              (blocks_at (k / n) (k mod n) sel vs 0) Dict.empty)
    as [dropped Hp].
  simpl in Hp. rewrite blocks_concat in Hp. now exists dropped.
Qed.

Lemma built_distinct_names :
  NoDup vs ->
  built ids vs count t = blocks_at (k / n) (k mod n) sel vs 0.
Proof.
  intros Hnd. rewrite built_blocks.
  rewrite DictFacts.set_all_fresh; [reflexivity | | intros ? _ []].
  now rewrite blocks_at_keys.
Qed.

End Built.

(** ** Key order *)

Lemma str_eqb_eq (a b : str) : str_eqb a b = true <-> a = b.
Proof. unfold str_eqb. destruct (str_eq_dec a b); split; congruence. Qed.

Lemma mem_in (k : str) (l : list str) : mem k l = true <-> In k l.
Proof.
  unfold mem. rewrite existsb_exists. split.
  - intros [x [Hx He]]. apply str_eqb_eq in He. now subst.
  - intros H. exists k. split; [assumption | now apply str_eqb_eq].
Qed.

Lemma mem_out (k : str) (l : list str) : mem k l = false <-> ~ In k l.
Proof.
  rewrite <- mem_in. destruct (mem k l); split; congruence.
Qed.

Lemma filter_twice {A} (P Q : A -> bool) (l : list A) :
  List.filter P (List.filter Q l) = List.filter (fun x => Q x && P x) l.
Proof.
  induction l as [|x l IH]; simpl; [reflexivity|].
  destruct (Q x); simpl; [destruct (P x)|]; now rewrite IH.
Qed.

Lemma keys_set_all_order {V} (kvs : list (str * V)) (d : Dict.t V) :
  Dict.keys (Dict.set_all kvs d)
  = Dict.keys d ++
    List.filter (fun k => negb (mem k (Dict.keys d))) (uniq (List.map fst kvs)).
Proof.
  revert d. induction kvs as [|[k v] kvs IH]; intros d.
  - simpl. now rewrite app_nil_r.
  - cbn [Dict.set_all fold_left fst snd List.map uniq List.filter].
    fold (Dict.set_all kvs (Dict.set k v d)). rewrite IH.
    rewrite filter_twice.
    destruct (DictFacts.in_keys_dec k d) as [Hin|Hout].
    + rewrite DictFacts.keys_set_old by assumption.
      replace (mem k (Dict.keys d)) with true by (symmetry; now apply mem_in).
      cbn [negb]. f_equal. apply filter_ext_in. intros x _.
      destruct (str_eqb k x) eqn:He; [|reflexivity].
      apply str_eqb_eq in He. subst x.
      replace (mem k (Dict.keys d)) with true by (symmetry; now apply mem_in).
      reflexivity.
    + rewrite DictFacts.keys_set_new by assumption.
      replace (mem k (Dict.keys d)) with false by (symmetry; now apply mem_out).
      cbn [negb]. unfold Dict.keys at 1 2. rewrite map_app. cbn [List.map fst].
      rewrite <- app_assoc. cbn [app]. do 2 f_equal.
      apply filter_ext. intros x. unfold mem.
      rewrite existsb_app. cbn [existsb]. rewrite orb_false_r.
      rewrite negb_orb. rewrite andb_comm. f_equal. f_equal.
      unfold str_eqb. destruct (str_eq_dec x k), (str_eq_dec k x); congruence.
Qed.

Lemma built_keys (ids : list Identifier) (vs : list str) (count : Z)
    (t : tape) :
  Dict.keys (built ids vs count t) = uniq vs.
Proof.
  unfold built. rewrite keys_set_all_order, blocks_at_keys. simpl.
  induction (uniq vs) as [|x l IH]; simpl; [reflexivity | now rewrite IH].
Qed.

Lemma uniq_in (v : str) (l : list str) : In v (uniq l) <-> In v l.
Proof.
  induction l as [|x l IH]; simpl; [tauto|].
  rewrite filter_In, IH. destruct (str_eq_dec x v) as [->|Hne].
  - tauto.
  - split; [tauto|]. intros [H|H]; [tauto|]. right. split; [assumption|].
    unfold str_eqb. destruct (str_eq_dec x v); [contradiction | reflexivity].
Qed.

Lemma uniq_nodup (l : list str) : NoDup (uniq l).
Proof.
  induction l as [|x l IH]; simpl; constructor.
  - rewrite filter_In. intros [_ H]. unfold str_eqb in H.
    destruct (str_eq_dec x x); [discriminate | congruence].
  - now apply NoDup_filter.
Qed.


Lemma last_occurrence (v : str) (vs : list str) :
  In v vs ->
  exists i, nth_error vs i = Some v /\ ~ In v (skipn (S i) vs).
Proof.
  induction vs as [|x vs IH]; intros H; [contradiction|].
  destruct (in_dec str_eq_dec v vs) as [Hin|Hout].
  - destruct (IH Hin) as [i [Hi Hl]]. now exists (S i).
  - destruct H as [->|H]; [|contradiction]. now exists 0%nat.
Qed.

(** * The claims on the allocation *)

(** C1, as the specification states it, fails when a recipient name comes
    twice: with four ballots for [Ana; Luis; Ana] the call returns an
    assignment that holds two ballots, not [min(4, 4) = 4]. *)
Lemma total_fails_on_duplicate_names :
  ballot_ids duplicate_state <> [] /\ verifiers duplicate_state <> [] /\
  exists a st',
    assign_ballots 4 duplicate_state = (Ok a, st') /\
    total_assigned a <> Z.min 4 (len (ballot_ids duplicate_state)).
Proof.
  split; [discriminate|]. split; [discriminate|].
  eexists. eexists. split; [vm_compute; reflexivity|].
  vm_compute. discriminate.
Qed.

(** C1 (amended): when the recipient names are pairwise distinct, every
    assignment returned by [assign_ballots] holds
    [min(requested_count, len(identifiers))] identifiers in all, so a count
    above the number of identifiers is clamped to it; and the call does
    return an assignment for non-empty lists and a count that is not
    negative. *)
Theorem assign_ballots_total (st : State) (count : Z) :
  NoDup (verifiers st) ->
  (ballot_ids st <> [] -> verifiers st <> [] -> 0 <= count ->
   exists a st', assign_ballots count st = (Ok a, st')) /\
  (forall a st',
     assign_ballots count st = (Ok a, st') ->
     total_assigned a = Z.min count (len (ballot_ids st))).
Proof.
  intros Hnd. split; [apply assign_ballots_returns|].
  intros a st' H.
  destruct (assign_ballots_inv _ _ _ _ H) as [Hi [Hv [Hc [-> _]]]].
  rewrite total_assigned_concat, built_distinct_names by assumption.
  unfold Dict.values. rewrite blocks_concat by assumption.
  now rewrite sel_len.
Qed.

Lemma assign_ballots_total_witness :
  exists a st',
    assign_ballots 10 example_state = (Ok a, st') /\
    total_assigned a = Z.min 10 (len (ballot_ids example_state)).
Proof.
  assert (Hnd : NoDup (verifiers example_state)).
  { repeat constructor; simpl; intuition discriminate. }
  destruct (assign_ballots_total example_state 10 Hnd) as [Hret Htot].
  destruct Hret as [a [st' H]]; [discriminate | discriminate | lia |].
  exists a, st'. split; [exact H | exact (Htot a st' H)].
Defined.

(** C2, as the specification states it, fails when a recipient name comes
    twice: with four ballots for [Ana; Luis; Ana] the recipient at index 0
    is below the remainder [4 % 3 = 1], and yet holds one ballot, not
    [4 // 3 + 1 = 2]. *)
Lemma share_fails_on_duplicate_names :
  exists a st' b,
    assign_ballots 4 duplicate_state = (Ok a, st') /\
    nth_error (verifiers duplicate_state) 0 = Some (lit "Ana") /\
    0 < 4 mod len (verifiers duplicate_state) /\
    Dict.get (lit "Ana") a = Some b /\
    len b <> 4 / len (verifiers duplicate_state) + 1.
Proof.
  eexists. eexists. eexists.
  split; [vm_compute; reflexivity|].
  split; [reflexivity|].
  split; [vm_compute; reflexivity|].
  split; [vm_compute; reflexivity|].
  vm_compute. discriminate.
Qed.

(** C2 (amended): in every assignment returned by [assign_ballots], with
    [count] the clamped count, the recipient at load-order index [i] whose
    name does not come again later in the list (every recipient, when the
    names are distinct) holds exactly [count // num_recipients + 1]
    identifiers when [i < count % num_recipients], and exactly
    [count // num_recipients] otherwise. *)
Theorem assign_ballots_share (st : State) (requested : Z)
    (a : Assignment) (st' : State) (i : nat) (v : str) :
  assign_ballots requested st = (Ok a, st') ->
  nth_error (verifiers st) i = Some v ->
  ~ In v (skipn (S i) (verifiers st)) ->
  let count := Z.min requested (len (ballot_ids st)) in
  let num_recipients := len (verifiers st) in
  exists b,
    Dict.get v a = Some b /\
    len b = if Z.of_nat i <? count mod num_recipients
            then count / num_recipients + 1
            else count / num_recipients.
Proof.
  intros H Hi Hlast count num_recipients.
  destruct (assign_ballots_inv _ _ _ _ H) as [Hids [Hvs [Hc [-> _]]]].
  rewrite (built_get_last _ _ requested (rng st) _ _ Hi Hlast).
  eexists. split; [reflexivity|].
  assert (Hn : (i < List.length (verifiers st))%nat)
    by (apply nth_error_Some; congruence).
  pose proof (clamped_range (ballot_ids st) requested Hc) as Hk.
  pose proof (verifiers_pos (verifiers st) Hvs) as Hpos.
  rewrite block_len;
    [ | tauto | assumption | now apply sel_len | unfold len; lia ].
  unfold extra_of, count, num_recipients, clamped.
  destruct (Z.ltb_spec (Z.of_nat i)
              (Z.min requested (len (ballot_ids st)) mod len (verifiers st)));
    lia.
Qed.

Lemma assign_ballots_share_witness :
  exists b,
    Dict.get (lit "Ana") (built (ballot_ids duplicate_state)
                                (verifiers duplicate_state) 4 []) = Some b /\
    len b = 1.
Proof.
  refine (assign_ballots_share duplicate_state 4 _ _ 2 (lit "Ana") _ _ _).
  - vm_compute. reflexivity.
  - reflexivity.
  - simpl. tauto.
Defined.

(** C3: in every assignment returned by [assign_ballots], the numbers of
    identifiers of any two recipients differ by at most one; and the call
    does return an assignment for non-empty lists and a count that is not
    negative. *)
Theorem assign_ballots_near_even (st : State) (count : Z) :
  (ballot_ids st <> [] -> verifiers st <> [] -> 0 <= count ->
   exists a st', assign_ballots count st = (Ok a, st')) /\
  (forall a st' r1 r2 b1 b2,
     assign_ballots count st = (Ok a, st') ->
     Dict.get r1 a = Some b1 -> Dict.get r2 a = Some b2 ->
     Z.abs (len b1 - len b2) <= 1).
Proof.
  split; [apply assign_ballots_returns|].
  intros a st' r1 r2 b1 b2 H H1 H2.
  destruct (assign_ballots_inv _ _ _ _ H) as [Hids [Hvs [Hc [-> _]]]].
  pose proof (clamped_range (ballot_ids st) count Hc) as Hk.
  pose proof (verifiers_pos (verifiers st) Hvs) as Hpos.
  pose proof (sel_len (ballot_ids st) count (rng st) Hc) as Hsel.
  destruct (built_get_block _ _ _ _ _ _ H1) as [j1 [Hj1 ->]].
  destruct (built_get_block _ _ _ _ _ _ H2) as [j2 [Hj2 ->]].
  rewrite !block_len by (assumption || tauto).
  unfold extra_of.
  destruct (j1 <? _), (j2 <? _); lia.
Qed.

Lemma assign_ballots_near_even_witness :
  Z.abs (len [IdStr (lit "B"); IdStr (lit "E")] - len [IdStr (lit "A")]) <= 1.
Proof.
  destruct (assign_ballots_near_even example_state 5) as [Hret Heven].
  destruct Hret as [a [st' H]]; [discriminate | discriminate | lia |].
  refine (Heven a st' (lit "X") (lit "Z") _ _ H _ _).
  - vm_compute in H. injection H as <- _. reflexivity.
  - vm_compute in H. injection H as <- _. reflexivity.
Defined.

(** C4: in every assignment returned by [assign_ballots], every identifier
    of a recipient's list was loaded; and when the loaded identifiers are
    free of duplicates, no identifier comes twice in the lists of the
    recipients taken together. *)
Theorem assign_ballots_disjoint (st : State) (count : Z)
    (a : Assignment) (st' : State) :
  assign_ballots count st = (Ok a, st') ->
  (forall x, In x (List.concat (Dict.values a)) -> In x (ballot_ids st)) /\
  (NoDup (ballot_ids st) -> NoDup (List.concat (Dict.values a))).
Proof.
  intros H.
  destruct (assign_ballots_inv _ _ _ _ H) as [Hids [Hvs [Hc [-> _]]]].
  destruct (built_values_from_sel (ballot_ids st) (verifiers st) count
              (rng st) Hvs Hc) as [dropped Hd].
  destruct (sel_from_ids (ballot_ids st) count (rng st) Hc) as [rest Hr].
  split.
  - intros x Hx. apply (Permutation_in x Hr). apply in_or_app. left.
    apply (Permutation_in x Hd). apply in_or_app. now left.
  - intros Hnd.
    apply (Permutation_NoDup (Permutation_sym Hr)) in Hnd.
    apply NoDup_app_remove_r in Hnd.
    apply (Permutation_NoDup (Permutation_sym Hd)) in Hnd.
    now apply NoDup_app_remove_r in Hnd.
Qed.

Lemma assign_ballots_disjoint_witness :
  (forall x,
     In x (List.concat (Dict.values
             (built five_ballots (verifiers example_state) 5
                    (rng example_state)))) ->
     In x five_ballots) /\
  NoDup (List.concat (Dict.values
           (built five_ballots (verifiers example_state) 5
                  (rng example_state)))).
Proof.
  destruct (assign_ballots_disjoint example_state 5 _ _
              (assign_ballots_run example_state 5
                 ltac:(discriminate) ltac:(discriminate) ltac:(lia)))
    as [Hin Hnd].
  split; [exact Hin|]. apply Hnd.
  repeat constructor; simpl; intuition discriminate.
Defined.

Lemma sample_error_not_loaded : SampleError <> NotLoadedError.
Proof. intros H. vm_compute in H. discriminate. Qed.

Lemma built_over_request (ids : list Identifier) (vs : list str) (count : Z)
    (t : tape) :
  len ids < count -> built ids vs count t = built ids vs (len ids) t.
Proof.
  intros H. unfold built, clamped.
  now rewrite Z.min_r, Z.min_id by lia.
Qed.

(** C5: [assign_ballots] fails with the "No data loaded" error exactly when
    the identifier list or the recipient list is empty.  A request above
    the number of identifiers is no error: the call prints the warning and
    returns what a request for exactly the available number returns.  (The
    only other failure is the [ValueError] of [random.sample] on a negative
    count.) *)
Theorem assign_ballots_not_loaded_iff (st : State) (count : Z) :
  (fst (assign_ballots count st) = Raise NotLoadedError
   <-> ballot_ids st = [] \/ verifiers st = []) /\
  (ballot_ids st <> [] -> verifiers st <> [] ->
   len (ballot_ids st) < count ->
   exists a st',
     assign_ballots count st = (Ok a, st') /\
     fst (assign_ballots (len (ballot_ids st)) st) = Ok a /\
     trace st' = trace st ++ [Print (warning count (len (ballot_ids st)))]) /\
  ((exists e, fst (assign_ballots count st) = Raise e)
   <-> ballot_ids st = [] \/ verifiers st = [] \/ count < 0).
Proof.
  pose proof (len_nonneg (ballot_ids st)) as Hlen.
  split; [|split].
  - split.
    + intros H.
      destruct (list_nil_dec (ballot_ids st)) as [Hi|Hi]; [now left|].
      destruct (list_nil_dec (verifiers st)) as [Hv|Hv]; [now right|].
      exfalso. destruct (Z_lt_le_dec count 0) as [Hc|Hc].
      * rewrite assign_ballots_negative in H by assumption. simpl in H.
        injection H as H. now apply sample_error_not_loaded; f_equal.
      * rewrite assign_ballots_run in H by assumption. discriminate.
    + intros H. now rewrite assign_ballots_not_loaded.
  - intros Hi Hv Hc.
    rewrite !assign_ballots_run by (assumption || lia).
    eexists. eexists. split; [reflexivity|]. cbn [fst trace]. split.
    + f_equal. symmetry. now apply built_over_request.
    + unfold warnings.
      now replace (len (ballot_ids st) <? count) with true
        by (symmetry; apply Z.ltb_lt; lia).
  - split.
    + intros [e H].
      destruct (list_nil_dec (ballot_ids st)) as [Hi|Hi]; [now left|].
      destruct (list_nil_dec (verifiers st)) as [Hv|Hv]; [now right; left|].
      destruct (Z_lt_le_dec count 0) as [Hc|Hc]; [now right; right|].
      rewrite assign_ballots_run in H by assumption. discriminate.
    + intros H.
      destruct (list_nil_dec (ballot_ids st)) as [Hi|Hi];
        [exists NotLoadedError; rewrite assign_ballots_not_loaded; tauto|].
      destruct (list_nil_dec (verifiers st)) as [Hv|Hv];
        [exists NotLoadedError; rewrite assign_ballots_not_loaded; tauto|].
      exists SampleError. rewrite assign_ballots_negative; [reflexivity | | |];
        tauto.
Qed.

Lemma assign_ballots_not_loaded_iff_witness :
  exists a st',
    assign_ballots 10 example_state = (Ok a, st') /\
    fst (assign_ballots 5 example_state) = Ok a /\
    trace st' = [Print (warning 10 5)].
Proof.
  destruct (assign_ballots_not_loaded_iff example_state 10) as [_ [H _]].
  apply H; [discriminate | discriminate | vm_compute; reflexivity].
Defined.

(** C9: an assignment returned by [assign_ballots] has one entry per
    distinct recipient name, in the order of first occurrence; the entry of
    a name is the contiguous block of the shuffled selection that belongs
    to the last load-order index of that name, so the blocks of earlier
    indices of the name are not in the assignment, and the assignment holds
    at most [count] identifiers, [count] being the clamped count.  With a
    repeated name it can hold strictly fewer. *)
Theorem assign_ballots_duplicate_names :
  (forall (st : State) (requested : Z) (a : Assignment) (st' : State),
     assign_ballots requested st = (Ok a, st') ->
     let count := Z.min requested (len (ballot_ids st)) in
     let n := len (verifiers st) in
     let q := count / n in
     let r := count mod n in
     let shuffled := fst (selected (ballot_ids st) count (rng st)) in
     Dict.keys a = uniq (verifiers st) /\
     NoDup (Dict.keys a) /\
     (forall v, In v (Dict.keys a) <-> In v (verifiers st)) /\
     (forall (i : nat) (v : str),
        nth_error (verifiers st) i = Some v ->
        ~ In v (skipn (S i) (verifiers st)) ->
        Dict.get v a =
        Some (py_slice shuffled
                (Z.of_nat i * q + Z.min (Z.of_nat i) r)
                ((Z.of_nat i + 1) * q + Z.min (Z.of_nat i + 1) r))) /\
     (forall (v : str) (b : list Identifier),
        Dict.get v a = Some b ->
        exists i : nat,
          nth_error (verifiers st) i = Some v /\
          ~ In v (skipn (S i) (verifiers st)) /\
          b = py_slice shuffled
                (Z.of_nat i * q + Z.min (Z.of_nat i) r)
                ((Z.of_nat i + 1) * q + Z.min (Z.of_nat i + 1) r)) /\
     total_assigned a <= count) /\
  (exists (st : State) (requested : Z) (a : Assignment) (st' : State),
     assign_ballots requested st = (Ok a, st') /\
     total_assigned a < Z.min requested (len (ballot_ids st))).
Proof.
  split.
  - intros st requested a st' H count n q r shuffled.
    destruct (assign_ballots_inv _ _ _ _ H) as [Hids [Hvs [Hc [-> _]]]].
    assert (Hkeys : Dict.keys (built (ballot_ids st) (verifiers st) requested
                                     (rng st)) = uniq (verifiers st))
      by apply built_keys.
    split; [exact Hkeys|]. rewrite Hkeys.
    split; [apply uniq_nodup|].
    split; [intros v; apply uniq_in|].
    split; [|split].
    + intros i v Hi Hlast.
      now rewrite (built_get_last _ _ requested (rng st) _ _ Hi Hlast).
    + intros v b Hb.
      assert (Hv : In v (verifiers st)).
      { apply uniq_in. rewrite <- Hkeys.
        apply DictFacts.get_in in Hb.
        now apply (in_map fst _ (v, b)). }
      destruct (last_occurrence v _ Hv) as [i [Hi Hlast]].
      exists i. split; [exact Hi|]. split; [exact Hlast|].
      rewrite (built_get_last _ _ requested (rng st) _ _ Hi Hlast) in Hb.
      now injection Hb as <-.
    + now apply built_total_le.
  - exists duplicate_state, 4. eexists. eexists.
    split; [vm_compute; reflexivity | vm_compute; reflexivity].
Qed.

Lemma assign_ballots_duplicate_names_witness :
  Dict.get (lit "Ana")
    (built (ballot_ids duplicate_state) (verifiers duplicate_state) 4 [])
  = Some (py_slice
            (fst (selected (ballot_ids duplicate_state) 4 [])) 3 4).
Proof.
  destruct assign_ballots_duplicate_names as [H _].
  destruct (H duplicate_state 4 _ _
              (assign_ballots_run duplicate_state 4
                 ltac:(discriminate) ltac:(discriminate) ltac:(lia)))
    as [_ [_ [_ [Hget _]]]].
  apply (Hget 2%nat (lit "Ana")); [reflexivity | simpl; tauto].
Defined.

(** * The claims on export and summary *)

Lemma writes_app (t1 t2 : list Event) :
  writes (t1 ++ t2) = writes t1 ++ writes t2.
Proof. apply flat_map_app. Qed.

Lemma list_mul_singleton {A} (x : A) (n : Z) :
  list_mul [x] n = List.repeat x (Z.to_nat n).
Proof.
  unfold list_mul. induction (Z.to_nat n) as [|m IH]; simpl;
    [reflexivity | now rewrite IH].
Qed.

Lemma summary_loop_map (items : list (str * list Identifier))
    (acc : list SummaryRow) :
  summary_loop items acc = acc ++ List.map summary_row items.
Proof.
  revert acc. induction items as [|[v b] items IH]; intros acc; simpl.
  - now rewrite app_nil_r.
  - rewrite IH. now rewrite <- app_assoc.
Qed.

Lemma ballot_rows_nth (ballots : list Identifier) (i : nat) :
  nth_error (ballot_rows ballots) i
  = option_map ballot_row (nth_error ballots i).
Proof.
  revert i. induction ballots as [|b bs IH]; intros [|i]; simpl; auto.
Qed.

Lemma ballot_rows_length (ballots : list Identifier) :
  List.length (ballot_rows ballots) = List.length ballots.
Proof. induction ballots; simpl; congruence. Qed.

Lemma ballot_rows_in (ballots : list Identifier) (row : list str) :
  In row (ballot_rows ballots) ->
  exists id, In id ballots /\ row = ballot_row id.
Proof.
  induction ballots as [|b bs IH]; simpl; [contradiction|].
  intros [<-|H]; [exists b; tauto|].
  destruct (IH H) as [id [Hin ->]]. exists id. tauto.
Qed.

Lemma ballot_row_shape (id : Identifier) :
  ballot_row id = py_str id :: List.repeat (lit "0") 212 /\
  len (ballot_row id) = len header.
Proof.
  unfold ballot_row. rewrite list_mul_singleton. split; reflexivity.
Qed.

Section NameFacts.

Context {U : UnicodeData}.

Lemma kept_chars_filter (verifier : str) :
  str_join [] (kept_chars verifier) = List.filter allowed verifier.
Proof.
  induction verifier as [|c s IH]; [reflexivity|].
  cbn [kept_chars List.filter].
  replace (allowed c) with (isalnum c || in_extra c)
    by (unfold allowed, in_extra; simpl; now rewrite orb_false_r, !orb_assoc).
  destruct (isalnum c || in_extra c); [|exact IH].
  rewrite <- IH. destruct (kept_chars s); reflexivity.
Qed.

Lemma rstrip_split (s : str) :
  exists w, s = rstrip s ++ w /\ forallb isspace w = true.
Proof.
  induction s as [|c s [w [Hs Hw]]]; [now exists []|].
  cbn [rstrip]. destruct (rstrip s) as [|x r'].
  - simpl in Hs. subst s. destruct (isspace c) eqn:Hc.
    + exists (c :: w). simpl. now rewrite Hc, Hw.
    + now exists w.
  - exists w. split; [simpl; now rewrite Hs at 1 | assumption].
Qed.

Lemma rstrip_last (s : str) :
  rstrip s = [] \/ exists p c, rstrip s = p ++ [c] /\ isspace c = false.
Proof.
  induction s as [|c s IH]; [now left|].
  cbn [rstrip]. destruct (rstrip s) as [|x r'].
  - destruct (isspace c) eqn:Hc; [now left|].
    right. now exists [], c.
  - right. destruct IH as [IH|[p [c' [Hp Hc']]]]; [discriminate|].
    exists (c :: p), c'. rewrite Hp. now split.
Qed.

End NameFacts.


Lemma disk_changes_app (t1 t2 : list Event) :
  disk_changes (t1 ++ t2) = disk_changes t1 ++ disk_changes t2.
Proof. apply flat_map_app. Qed.

Lemma extend_extend (st : State) (e1 e2 : list Event) :
  extend (extend st e1) e2 = extend st (e1 ++ e2).
Proof. unfold extend. cbn. now rewrite app_assoc. Qed.

Lemma extend_nil (st : State) : extend st [] = st.
Proof. destruct st. unfold extend. cbn. now rewrite app_nil_r. Qed.

Section ExportFacts.

Context {U : UnicodeData} {F : FileSystem}.

Lemma writes_export_events (output_directory : str)
    (items : list (str * list Identifier)) :
  writes (export_events output_directory items)
  = List.map (fun p => (filename output_directory (fst p), file_rows (snd p)))
             items.
Proof.
  induction items as [|[v b] items IH]; [reflexivity|].
  unfold export_events in *. simpl. now rewrite <- IH.
Qed.

Lemma disk_changes_export_events (output_directory : str)
    (items : list (str * list Identifier)) :
  disk_changes (export_events output_directory items)
  = List.map (fun p => (filename output_directory (fst p),
                        Complete (file_rows (snd p))))
             items.
Proof.
  induction items as [|[v b] items IH]; [reflexivity|].
  unfold export_events in *. simpl. now rewrite <- IH.
Qed.

Lemma export_events_app (output_directory : str)
    (l1 l2 : list (str * list Identifier)) :
  export_events output_directory (l1 ++ l2)
  = export_events output_directory l1 ++ export_events output_directory l2.
Proof. apply flat_map_app. Qed.


Lemma write_file_cases (path : str) (rows : list (list str)) (st : State) :
  (write_outcome (trace st) path rows = Written /\
   write_file path rows st = (Ok tt, extend st [WriteFile path rows])) \/
  (exists e,
     write_outcome (trace st) path rows = NotOpened e /\
     write_file path rows st = (Raise e, st)) \/
  (exists e,
     write_outcome (trace st) path rows = Interrupted e /\
     write_file path rows st = (Raise e, extend st [PartialFile path])).
Proof.
  unfold write_file.
  destruct (write_outcome (trace st) path rows) as [|e|e].
  - left. now split.
  - right. left. now exists e.
  - right. right. now exists e.
Qed.

Lemma os_makedirs_cases (path : str) (st : State) :
  (path = [] /\
   os_makedirs path st
   = (Raise (OSError (lit "[Errno 2] No such file or directory: ''")), st)) \/
  (path <> [] /\ exists e,
     makedirs_outcome (trace st) path = Some e /\
     os_makedirs path st = (Raise e, st)) \/
  (path <> [] /\ makedirs_outcome (trace st) path = None /\
   os_makedirs path st = (Ok tt, extend st [MakeDirs path])).
Proof.
  unfold os_makedirs. destruct path as [|c path]; [left; now split|].
  cbn [is_nil]. right.
  destruct (makedirs_outcome (trace st) (c :: path)) as [e|].
  - left. split; [discriminate|]. now exists e.
  - right. split; [discriminate|]. now split.
Qed.

Lemma export_loop_step (output_directory : str) (v : str)
    (b : list Identifier) (items : list (str * list Identifier))
    (st : State) :
  for_each ((v, b) :: items) (fun '(verifier, ballots) =>
    write_file (filename output_directory verifier) (file_rows ballots) ;;;
    print (generated verifier ballots)) st
  = match write_file (filename output_directory v) (file_rows b) st with
    | (Ok _, s1) =>
        for_each items (fun '(verifier, ballots) =>
          write_file (filename output_directory verifier)
                     (file_rows ballots) ;;;
          print (generated verifier ballots))
          (extend s1 [Print (generated v b)])
    | (Raise e, s1) => (Raise e, s1)
    end.
Proof.
  cbn [for_each]. unfold bind at 1. unfold bind at 1.
  destruct (write_file (filename output_directory v) (file_rows b) st)
    as [[[]|e] s1]; reflexivity.
Qed.

(** The loop over the items either writes a file for every item, or stops
    at the first item whose file the system refuses, with the files of the
    items before it written. *)
Lemma export_loop_cases (output_directory : str)
    (items : list (str * list Identifier)) (st : State) :
  let r := for_each items (fun '(verifier, ballots) =>
             write_file (filename output_directory verifier)
                        (file_rows ballots) ;;;
             print (generated verifier ballots)) st in
  r = (Ok tt, extend st (export_events output_directory items)) \/
  exists l1 v b l2 e,
    items = l1 ++ (v, b) :: l2 /\
    ((write_outcome (trace st ++ export_events output_directory l1)
        (filename output_directory v) (file_rows b) = NotOpened e /\
      r = (Raise e, extend st (export_events output_directory l1))) \/
     (write_outcome (trace st ++ export_events output_directory l1)
        (filename output_directory v) (file_rows b) = Interrupted e /\
      r = (Raise e,
           extend st (export_events output_directory l1 ++
                      [PartialFile (filename output_directory v)])))).
Proof.
  cbv zeta. revert st. induction items as [|[v b] items IH]; intros st.
  - left. cbn [for_each]. unfold ret. now rewrite extend_nil.
  - rewrite export_loop_step.
    destruct (write_file_cases (filename output_directory v) (file_rows b) st)
      as [[Hw Hr]|[[e [Hw Hr]]|[e [Hw Hr]]]]; rewrite Hr.
    + rewrite extend_extend. cbn [app].
      set (st2 := extend st [WriteFile (filename output_directory v)
                               (file_rows b); Print (generated v b)]).
      destruct (IH st2) as [Hok|[l1 [v' [b' [l2 [e [Hit Hcase]]]]]]].
      * left. rewrite Hok. unfold st2. now rewrite extend_extend.
      * right. exists ((v, b) :: l1), v', b', l2, e.
        split; [now rewrite Hit|].
        assert (Htr : trace st2 ++ export_events output_directory l1
                      = trace st ++
                        export_events output_directory ((v, b) :: l1)).
        { unfold st2, extend. cbn [trace]. rewrite <- app_assoc.
          reflexivity. }
        rewrite Htr in Hcase.
        destruct Hcase as [[Ho Hr']|[Ho Hr']]; [left | right];
          (split; [exact Ho|]); rewrite Hr'; unfold st2;
          now rewrite extend_extend.
    + right. exists [], v, b, items, e. split; [reflexivity|]. left.
      cbn [export_events flat_map]. rewrite app_nil_r, extend_nil.
      now split.
    + right. exists [], v, b, items, e. split; [reflexivity|]. right.
      cbn [export_events flat_map app]. rewrite app_nil_r.
      split; [exact Hw|]. reflexivity.
Qed.

Lemma generate_csv_files_steps (output_directory : str) (st : State) :
  assignment_results st <> Dict.empty ->
  generate_csv_files output_directory st
  = match os_makedirs output_directory st with
    | (Ok _, s') =>
        for_each (Dict.items (assignment_results st))
          (fun '(verifier, ballots) =>
             write_file (filename output_directory verifier)
                        (file_rows ballots) ;;;
             print (generated verifier ballots)) s'
    | (Raise e, s') => (Raise e, s')
    end.
Proof.
  intros Hne. unfold generate_csv_files, bind at 1, gets.
  destruct (assignment_results st) as [|p a] eqn:Ha; [now elim Hne|].
  reflexivity.
Qed.

(** An export that completes made the directory and wrote a file for every
    item of the assignment, in order. *)
Lemma generate_csv_files_ok (output_directory : str) (st st' : State) :
  generate_csv_files output_directory st = (Ok tt, st') ->
  assignment_results st <> Dict.empty /\
  output_directory <> [] /\
  st' = extend st (MakeDirs output_directory
                     :: export_events output_directory
                          (assignment_results st)).
Proof.
  intros H.
  assert (Hne : assignment_results st <> Dict.empty).
  { intros E. unfold generate_csv_files, bind, gets in H.
    rewrite E in H. discriminate. }
  split; [exact Hne|]. rewrite (generate_csv_files_steps _ _ Hne) in H.
  destruct (os_makedirs_cases output_directory st)
    as [[_ Hr]|[[_ [e [_ Hr]]]|[Hdir [_ Hr]]]]; rewrite Hr in H;
    try discriminate.
  split; [exact Hdir|].
  destruct (export_loop_cases output_directory
              (Dict.items (assignment_results st))
              (extend st [MakeDirs output_directory]))
    as [Hok|[l1 [v [b [l2 [e [_ [[_ Hr']|[_ Hr']]]]]]]]];
    cbv zeta in *; rewrite ?Hok, ?Hr' in H; try discriminate.
  injection H as <-. rewrite extend_extend. reflexivity.
Qed.

(** On a file system that refuses nothing the export completes. *)
Lemma generate_csv_files_accepted (output_directory : str) (st : State) :
  accepts_all F -> output_directory <> [] ->
  assignment_results st <> Dict.empty ->
  generate_csv_files output_directory st
  = (Ok tt,
     extend st (MakeDirs output_directory
                  :: export_events output_directory (assignment_results st))).
Proof.
  intros [Hm Hw] Hdir Hne. rewrite (generate_csv_files_steps _ _ Hne).
  destruct (os_makedirs_cases output_directory st)
    as [[E _]|[[_ [e [Ho _]]]|[_ [_ Hr]]]];
    [contradiction | rewrite Hm in Ho; discriminate | rewrite Hr].
  destruct (export_loop_cases output_directory
              (Dict.items (assignment_results st))
              (extend st [MakeDirs output_directory]))
    as [Hok|[l1 [v [b [l2 [e [_ [[Ho _]|[Ho _]]]]]]]]];
    cbv zeta in *; try (rewrite Hw in Ho; discriminate).
  rewrite Hok, extend_extend. reflexivity.
Qed.


Lemma generate_csv_files_ok_writes (output_directory : str)
    (st st' : State) :
  generate_csv_files output_directory st = (Ok tt, st') ->
  writes (trace st')
  = writes (trace st) ++
    List.map (fun p => (filename output_directory (fst p), file_rows (snd p)))
             (Dict.items (assignment_results st)).
Proof.
  intros H. destruct (generate_csv_files_ok _ _ _ H) as [_ [_ ->]].
  unfold extend. cbn [trace]. rewrite writes_app. cbn.
  now rewrite writes_export_events.
Qed.

Lemma generate_csv_files_ok_disk (output_directory : str)
    (st st' : State) :
  generate_csv_files output_directory st = (Ok tt, st') ->
  disk_changes (trace st')
  = disk_changes (trace st) ++
    List.map (fun p => (filename output_directory (fst p),
                        Complete (file_rows (snd p))))
             (Dict.items (assignment_results st)).
Proof.
  intros H. destruct (generate_csv_files_ok _ _ _ H) as [_ [_ ->]].
  unfold extend. cbn [trace]. rewrite disk_changes_app. cbn.
  now rewrite disk_changes_export_events.
Qed.

(** After an export that completed, the file at the path of an item that
    no later item shares its file name with holds the rows of that item. *)
Lemma exported_file_on_disk (output_directory : str) (st st' : State)
    (l1 l2 : list (str * list Identifier)) (verifier : str)
    (ballots : list Identifier) :
  generate_csv_files output_directory st = (Ok tt, st') ->
  Dict.items (assignment_results st) = l1 ++ (verifier, ballots) :: l2 ->
  (forall p, In p l2 ->
     filename output_directory (fst p) <> filename output_directory verifier) ->
  Dict.get (filename output_directory verifier) (files_after (trace st'))
  = Some (Complete (file_rows ballots)).
Proof.
  intros H Ha Hlater. unfold files_after.
  rewrite (generate_csv_files_ok_disk _ _ _ H), Ha, map_app.
  cbn [List.map fst snd]. rewrite app_assoc.
  apply DictFacts.get_set_all_last.
  rewrite map_map. cbn [fst]. intros Hin. apply in_map_iff in Hin.
  destruct Hin as [p [Hp Hin]]. exact (Hlater p Hin Hp).
Qed.

End ExportFacts.

Lemma assign_ballots_failure_state (st : State) (count : Z) (e : Exn) :
  fst (assign_ballots count st) = Raise e -> snd (assign_ballots count st) = st.
Proof.
  intros H.
  destruct (list_nil_dec (ballot_ids st)) as [Hi|Hi];
    [now rewrite assign_ballots_not_loaded by (now left)|].
  destruct (list_nil_dec (verifiers st)) as [Hv|Hv];
    [now rewrite assign_ballots_not_loaded by (now right)|].
  destruct (Z_lt_le_dec count 0) as [Hc|Hc];
    [now rewrite assign_ballots_negative by assumption|].
  rewrite assign_ballots_run in H by assumption. discriminate.
Qed.

(** C6: with an empty assignment, which is what a fresh object holds and
    what a failed [assign_ballots] leaves in place, [generate_csv_files]
    fails with the "No assignments made" error and does nothing else: no
    directory is created and no file is written. *)
Theorem generate_csv_files_no_assignment {U : UnicodeData} {F : FileSystem}
    (output_directory : str) (st : State) :
  assignment_results st = Dict.empty ->
  generate_csv_files output_directory st = (Raise NoAssignmentError, st) /\
  writes (trace (snd (generate_csv_files output_directory st)))
  = writes (trace st) /\
  (forall t, assignment_results (init t) = Dict.empty) /\
  (forall count e,
     fst (assign_ballots count st) = Raise e ->
     assignment_results (snd (assign_ballots count st)) = Dict.empty).
Proof.
  intros H.
  assert (Hrun : generate_csv_files output_directory st
                 = (Raise NoAssignmentError, st)).
  { unfold generate_csv_files, bind, gets. now rewrite H. }
  split; [exact Hrun|]. split; [now rewrite Hrun|].
  split; [reflexivity|].
  intros count e He. now rewrite (assign_ballots_failure_state _ _ _ He).
Qed.

Lemma generate_csv_files_no_assignment_witness :
  @generate_csv_files ascii_only permissive (lit "output") (init [])
  = (Raise NoAssignmentError, init []).
Proof.
  apply (@generate_csv_files_no_assignment ascii_only permissive
           (lit "output") (init [])).
  reflexivity.
Defined.


(** C7, as the specification states it, fails in two ways.  When two
    recipients get the same file name, the file of the first holds the rows
    of the second: with three ballots for ["a/b"; "ab"] the recipient
    ["a/b"] holds two identifiers and its file one data row.  And an export
    into the directory [''] writes no file at all, because [os.makedirs]
    refuses the empty path. *)
Lemma exported_file_not_of_recipient :
  (let st := snd (assign_ballots 3 colliding_state) in
   exists st' b1 b2,
     @generate_csv_files ascii_only permissive (lit "out") st = (Ok tt, st') /\
     Dict.get (lit "a/b") (assignment_results st) = Some b1 /\
     Dict.get (@filename ascii_only (lit "out") (lit "a/b"))
              (files_after (trace st'))
     = Some (Complete (file_rows b2)) /\
     List.length (file_rows b2) <> S (List.length b1))
  /\
  (let st := snd (assign_ballots 5 example_state) in
   assignment_results st <> Dict.empty /\
   @generate_csv_files ascii_only permissive [] st
   = (Raise (OSError (lit "[Errno 2] No such file or directory: ''")), st) /\
   writes (trace st) = []).
Proof.
  split.
  - eexists. exists [IdInt 2; IdInt 3], [IdInt 1].
    split; [vm_compute; reflexivity|].
    split; [vm_compute; reflexivity|]. split; [vm_compute; reflexivity|].
    vm_compute. discriminate.
  - split; [vm_compute; discriminate|].
    split; vm_compute; reflexivity.
Qed.

(** C7 (amended): when the export completes, it has written one file per
    recipient, in the order of the assignment, and for every recipient whose
    file name is not also the file name of a later recipient the exported
    file consists of a first row equal to the header, then one row per
    identifier of the recipient, in order, whose first column is the
    identifier as text and whose other columns are all "0"; so the file has
    as many data rows as the recipient has identifiers, and every row has
    as many columns as the header.  The export completes for a non-empty
    assignment and a directory name that is not empty when the file system
    refuses nothing. *)
Theorem generate_csv_files_rows {U : UnicodeData} {F : FileSystem}
    (output_directory : str) (st : State) :
  (accepts_all F -> output_directory <> [] ->
   assignment_results st <> Dict.empty ->
   exists st', generate_csv_files output_directory st = (Ok tt, st')) /\
  forall st',
    generate_csv_files output_directory st = (Ok tt, st') ->
    writes (trace st')
    = writes (trace st) ++
      List.map (fun p => (filename output_directory (fst p),
                          file_rows (snd p)))
               (Dict.items (assignment_results st)) /\
    forall l1 verifier ballots l2,
      Dict.items (assignment_results st)
      = l1 ++ (verifier, ballots) :: l2 ->
      (forall p, In p l2 ->
         filename output_directory (fst p)
         <> filename output_directory verifier) ->
      exists rows,
        Dict.get (filename output_directory verifier)
                 (files_after (trace st')) = Some (Complete rows) /\
        nth_error rows 0 = Some header /\
        List.length rows = S (List.length ballots) /\
        (forall i ballot_id,
           nth_error ballots i = Some ballot_id ->
           nth_error rows (S i)
           = Some (py_str ballot_id
                     :: List.repeat (lit "0") (List.length header - 1))) /\
        (forall row, In row rows -> List.length row = List.length header).
Proof.
  split.
  - intros Hacc Hdir Hne. eexists.
    now apply generate_csv_files_accepted.
  - intros st' H. split; [now apply generate_csv_files_ok_writes|].
    intros l1 verifier ballots l2 Hit Hlater.
    exists (file_rows ballots).
    split; [exact (exported_file_on_disk _ st st' l1 l2 _ _ H Hit Hlater)|].
    unfold file_rows. split; [reflexivity|].
    split; [simpl; now rewrite ballot_rows_length|].
    split.
    + intros i ballot_id Hi. cbn [nth_error].
      rewrite ballot_rows_nth, Hi. simpl.
      now destruct (ballot_row_shape ballot_id) as [-> _].
    + intros row [<-|Hrow]; [reflexivity|].
      apply ballot_rows_in in Hrow. destruct Hrow as [id [_ ->]].
      now destruct (ballot_row_shape id) as [-> _].
Qed.

Lemma generate_csv_files_rows_witness :
  exists st',
    @generate_csv_files ascii_only permissive (lit "output")
      (snd (assign_ballots 5 example_state)) = (Ok tt, st') /\
    exists rows,
      Dict.get (@filename ascii_only (lit "output") (lit "Z"))
               (files_after (trace st')) = Some (Complete rows) /\
      List.length rows = 2%nat.
Proof.
  destruct (@generate_csv_files_rows ascii_only permissive (lit "output")
              (snd (assign_ballots 5 example_state))) as [Hrun Hrows].
  destruct Hrun as [st' H].
  - split; reflexivity.
  - discriminate.
  - vm_compute. discriminate.
  - exists st'. split; [exact H|].
    destruct (Hrows st' H) as [_ Hfile].
    destruct (Hfile [(lit "X", [IdStr (lit "B"); IdStr (lit "E")]);
                     (lit "Y", [IdStr (lit "D"); IdStr (lit "C")])]
                    (lit "Z") [IdStr (lit "A")] [])
      as [rows [Hget [_ [Hlen _]]]].
    + vm_compute. reflexivity.
    + intros p [].
    + exists rows. split; [exact Hget | exact Hlen].
Defined.
(** C8: the file written for a recipient is named
    [<output_directory>/Assigned_ballots_<safe>.csv], where [safe] is the
    name without the characters that are neither alphanumeric nor space,
    hyphen or underscore, and then without its trailing whitespace: what was
    cut at the end is whitespace only, and [safe] does not end in
    whitespace.  The name "Jo/hn Doe!" gives "John Doe". *)
Theorem export_filename {U : UnicodeData} (output_directory name : str) :
  (exists safe w,
     safe_verifier_name name = lit "Assigned_ballots_" ++ safe /\
     filename output_directory name
     = output_directory ++ lit "/" ++ lit "Assigned_ballots_" ++ safe
         ++ lit ".csv" /\
     List.filter allowed name = safe ++ w /\
     forallb isspace w = true /\
     (safe = [] \/ exists p c, safe = p ++ [c] /\ isspace c = false)) /\
  safe_verifier_name (lit "Jo/hn Doe!")
  = lit "Assigned_ballots_" ++ lit "John Doe" /\
  filename output_directory (lit "Jo/hn Doe!")
  = output_directory ++ lit "/Assigned_ballots_John Doe.csv".
Proof.
  split; [|split; [reflexivity | reflexivity]].
  destruct (rstrip_split (List.filter allowed name)) as [w [Hs Hw]].
  exists (rstrip (List.filter allowed name)), w.
  unfold filename, safe_verifier_name. rewrite kept_chars_filter.
  rewrite <- !app_assoc.
  repeat split; try assumption; try reflexivity.
  apply rstrip_last.
Qed.

(** C10: [get_assignment_summary] checks nothing: on an empty assignment it
    returns an empty summary and raises no error.  In general it returns
    one record per recipient, in the key order of the assignment, with the
    name, the number of identifiers and the identifiers joined with ", ",
    and it leaves the state as it was. *)
Theorem get_assignment_summary_records (st : State) :
  exists rows,
    get_assignment_summary st = (Ok rows, st) /\
    (assignment_results st = Dict.empty -> rows = []) /\
    List.map Verifier rows = Dict.keys (assignment_results st) /\
    List.length rows = List.length (Dict.items (assignment_results st)) /\
    (forall i verifier ballots,
       nth_error (Dict.items (assignment_results st)) i
       = Some (verifier, ballots) ->
       nth_error rows i
       = Some (mkSummaryRow verifier (len ballots)
                 (str_join (lit ", ") (List.map py_str ballots)))).
Proof.
  exists (List.map summary_row (Dict.items (assignment_results st))).
  split; [unfold get_assignment_summary, bind, gets, ret;
          now rewrite summary_loop_map|].
  split; [now intros ->|].
  split; [unfold Dict.keys, Dict.items; rewrite map_map; reflexivity|].
  split; [apply length_map|].
  intros i verifier ballots Hi. now rewrite nth_error_map, Hi.
Qed.

Lemma get_assignment_summary_records_witness :
  exists rows,
    get_assignment_summary (snd (assign_ballots 5 example_state))
    = (Ok rows, snd (assign_ballots 5 example_state)) /\
    nth_error rows 2
    = Some (mkSummaryRow (lit "Z") 1 (lit "A")).
Proof.
  destruct (get_assignment_summary_records
              (snd (assign_ballots 5 example_state)))
    as [rows [Hrun [_ [_ [_ Hrows]]]]].
  exists rows. split; [exact Hrun|].
  apply (Hrows 2%nat (lit "Z") [IdStr (lit "A")]).
  vm_compute. reflexivity.
Defined.

Example summary_of_example :
  fst (get_assignment_summary (snd (assign_ballots 5 example_state)))
  = Ok [mkSummaryRow (lit "X") 2 (lit "B, E");
        mkSummaryRow (lit "Y") 2 (lit "D, C");
        mkSummaryRow (lit "Z") 1 (lit "A")].
Proof. vm_compute. reflexivity. Qed.

(** * Further properties of the code *)

(** ** Loading *)

Lemma len_zero {A} (l : list A) : len l = 0 -> l = [].
Proof.
  destruct l; [reflexivity|]. rewrite len_cons.
  pose proof (len_nonneg l). lia.
Qed.

Section LoaderFacts.

Context {U : UnicodeData}.

Lemma lstrip_head (s : str) :
  lstrip s = [] \/ exists c r, lstrip s = c :: r /\ isspace c = false.
Proof.
  induction s as [|c s IH]; [now left|].
  simpl. destruct (isspace c) eqn:Hc; [exact IH|].
  right. now exists c, s.
Qed.

Lemma lstrip_fixed (c : char) (s : str) :
  isspace c = false -> lstrip (c :: s) = c :: s.
Proof. intros H. simpl. now rewrite H. Qed.

Lemma rstrip_head (c : char) (s : str) :
  isspace c = false -> exists r, rstrip (c :: s) = c :: r.
Proof.
  intros H. cbn [rstrip]. destruct (rstrip s) as [|x r].
  - rewrite H. now exists [].
  - now exists (x :: r).
Qed.

Lemma rstrip_fixed (p : str) (c : char) :
  isspace c = false -> rstrip (p ++ [c]) = p ++ [c].
Proof.
  intros H. induction p as [|a p IH].
  - simpl. now rewrite H.
  - cbn [app rstrip]. rewrite IH. now destruct (p ++ [c]) eqn:E;
      [destruct p; discriminate|].
Qed.

(** A stripped string is empty, or starts and ends with a character that
    is no whitespace. *)
Lemma strip_ends (s : str) :
  strip s = [] \/
  (exists c r, strip s = c :: r /\ isspace c = false) /\
  (exists p c, strip s = p ++ [c] /\ isspace c = false).
Proof.
  unfold strip. destruct (lstrip_head s) as [->|[c [r [-> Hc]]]]; [now left|].
  right. split.
  - destruct (rstrip_head c r Hc) as [r' ->]. now exists c, r'.
  - destruct (rstrip_last (c :: r)) as [H|H]; [|exact H].
    destruct (rstrip_head c r Hc) as [r' Hr]. congruence.
Qed.

Lemma strip_idempotent (s : str) : strip (strip s) = strip s.
Proof.
  destruct (strip_ends s) as [->|[[c [r [Hs Hc]]] [p [c' [Hp Hc']]]]];
    [reflexivity|].
  unfold strip at 1. rewrite Hs, lstrip_fixed by assumption.
  rewrite <- Hs, Hp. now apply rstrip_fixed.
Qed.

Lemma read_verifiers_filter (lines : list str) :
  read_verifiers lines
  = List.filter (fun s => negb (is_nil s)) (List.map strip lines).
Proof.
  induction lines as [|line lines IH]; [reflexivity|].
  simpl. destruct (is_nil (strip line)); simpl; now rewrite IH.
Qed.

Lemma load_data_found (host : Host) (paths : Paths) (st : State)
    (ids : list Identifier) (lines : list str) :
  read_csv_ids host (ballots_csv_path paths) = Found ids ->
  open_lines host (verifiers_txt_path paths) = Found lines ->
  load_data host paths st
  = (Done tt,
     mkState ids (read_verifiers lines) (assignment_results st) (rng st)
       (trace st ++
        [Print (lit "Loaded " ++ str_of_int (len ids) ++ lit " ballot IDs");
         Print (lit "Loaded " ++ str_of_int (len (read_verifiers lines)) ++
                lit " verifiers")])).
Proof.
  intros Hc Hl. unfold load_data, except_file_not_found, and_then.
  rewrite Hc, Hl. cbn. now rewrite <- app_assoc.
Qed.

Lemma load_data_no_ballots (host : Host) (paths : Paths) (st : State)
    (e : str) :
  read_csv_ids host (ballots_csv_path paths) = Missing e ->
  load_data host paths st
  = (Failed (FileNotFoundError e),
     mkState (ballot_ids st) (verifiers st) (assignment_results st) (rng st)
       (trace st ++ [Print (lit "Error loading files: " ++ e)])).
Proof.
  intros Hc. unfold load_data, except_file_not_found, and_then.
  rewrite Hc. reflexivity.
Qed.

Lemma load_data_no_verifiers (host : Host) (paths : Paths) (st : State)
    (ids : list Identifier) (e : str) :
  read_csv_ids host (ballots_csv_path paths) = Found ids ->
  open_lines host (verifiers_txt_path paths) = Missing e ->
  load_data host paths st
  = (Failed (FileNotFoundError e),
     mkState ids (verifiers st) (assignment_results st) (rng st)
       (trace st ++
        [Print (lit "Loaded " ++ str_of_int (len ids) ++ lit " ballot IDs");
         Print (lit "Error loading files: " ++ e)])).
Proof.
  intros Hc Hl. unfold load_data, except_file_not_found, and_then.
  rewrite Hc, Hl. cbn. now rewrite <- app_assoc.
Qed.

Lemma load_data_bad_ballots (host : Host) (paths : Paths) (st : State)
    (e : Exn) :
  read_csv_ids host (ballots_csv_path paths) = Unreadable e ->
  load_data host paths st = (Failed (Propagated e), st).
Proof.
  intros Hc. unfold load_data, except_file_not_found, and_then.
  rewrite Hc. reflexivity.
Qed.

Lemma load_data_bad_verifiers (host : Host) (paths : Paths) (st : State)
    (ids : list Identifier) (e : Exn) :
  read_csv_ids host (ballots_csv_path paths) = Found ids ->
  open_lines host (verifiers_txt_path paths) = Unreadable e ->
  load_data host paths st
  = (Failed (Propagated e),
     mkState ids (verifiers st) (assignment_results st) (rng st)
       (trace st ++
        [Print (lit "Loaded " ++ str_of_int (len ids) ++
                lit " ballot IDs")])).
Proof.
  intros Hc Hl. unfold load_data, except_file_not_found, and_then.
  rewrite Hc, Hl. reflexivity.
Qed.

End LoaderFacts.

(** X1: when both files are found, [load_data] succeeds and stores the
    ballot column as it is and, for the verifiers, the stripped lines that
    are not empty, in file order.  So every loaded name is non-empty, is
    its own [strip], and neither starts nor ends with whitespace. *)
Theorem load_data_names {U : UnicodeData} (host : Host) (paths : Paths)
    (st : State) (ids : list Identifier) (lines : list str) :
  read_csv_ids host (ballots_csv_path paths) = Found ids ->
  open_lines host (verifiers_txt_path paths) = Found lines ->
  exists st',
    load_data host paths st = (Done tt, st') /\
    ballot_ids st' = ids /\
    verifiers st'
    = List.filter (fun s => negb (is_nil s)) (List.map strip lines) /\
    forall name,
      In name (verifiers st') ->
      name <> [] /\ strip name = name /\
      (exists line, In line lines /\ strip line = name) /\
      (forall c r, name = c :: r -> isspace c = false) /\
      (forall p c, name = p ++ [c] -> isspace c = false).
Proof.
  intros Hc Hl. rewrite (load_data_found _ _ _ _ _ Hc Hl).
  eexists. split; [reflexivity|]. cbn [ballot_ids verifiers].
  split; [reflexivity|]. split; [apply read_verifiers_filter|].
  intros name Hin. rewrite read_verifiers_filter in Hin.
  apply filter_In in Hin. destruct Hin as [Hin Hne].
  apply in_map_iff in Hin. destruct Hin as [line [<- Hline]].
  assert (Hnil : strip line <> [])
    by (intros E; rewrite E in Hne; discriminate).
  split; [exact Hnil|]. split; [apply strip_idempotent|].
  split; [now exists line|].
  destruct (strip_ends line) as [E|[[c [r [Hs Hc']]] [p [c' [Hp Hc'']]]]];
    [contradiction|].
  split.
  - intros c0 r0 E. rewrite Hs in E. now injection E as <- _.
  - intros p0 c0 E. rewrite Hp in E. apply app_inj_tail in E.
    now destruct E as [_ <-].
Qed.

Lemma load_data_names_witness :
  exists st',
    @load_data ascii_only example_host default_paths (init []) = (Done tt, st')
    /\ verifiers st' = [lit "X"; lit "Y"; lit "Z"].
Proof.
  destruct (@load_data_names ascii_only example_host default_paths (init [])
              five_ballots
              [lit "  X " ++ newline; newline; lit "Y" ++ newline; lit " Z"]
              eq_refl eq_refl) as [st' [Hrun [_ [Hvs _]]]].
  exists st'. split; [exact Hrun|]. rewrite Hvs. reflexivity.
Defined.

(** X2: [load_data] is not atomic.  When the ballot file is missing it
    fails with the [FileNotFoundError] and leaves both lists as they were;
    when the ballot file is found and the verifier file is missing it fails
    too, but the ballots are already replaced while the verifiers are the
    old ones.  Either way the error is printed before it is raised. *)
Theorem load_data_missing_file {U : UnicodeData} (host : Host) (paths : Paths)
    (st : State) :
  (forall e,
     read_csv_ids host (ballots_csv_path paths) = Missing e ->
     let r := load_data host paths st in
     fst r = Failed (FileNotFoundError e) /\
     ballot_ids (snd r) = ballot_ids st /\
     verifiers (snd r) = verifiers st /\
     trace (snd r)
     = trace st ++ [Print (lit "Error loading files: " ++ e)]) /\
  (forall ids e,
     read_csv_ids host (ballots_csv_path paths) = Found ids ->
     open_lines host (verifiers_txt_path paths) = Missing e ->
     let r := load_data host paths st in
     fst r = Failed (FileNotFoundError e) /\
     ballot_ids (snd r) = ids /\
     verifiers (snd r) = verifiers st /\
     trace (snd r)
     = trace st ++
       [Print (lit "Loaded " ++ str_of_int (len ids) ++ lit " ballot IDs");
        Print (lit "Error loading files: " ++ e)]).
Proof.
  split.
  - intros e Hc. rewrite (load_data_no_ballots _ _ _ _ Hc). now cbn.
  - intros ids e Hc Hl. rewrite (load_data_no_verifiers _ _ _ _ _ Hc Hl).
    now cbn.
Qed.

Lemma load_data_missing_file_witness :
  let r := @load_data ascii_only example_host
             (mkPaths (lit "ballot_ids.csv") (lit "nobody.txt"))
             example_state in
  fst r = Failed (FileNotFoundError (lit "[Errno 2] No such file or directory"))
  /\ ballot_ids (snd r) = five_ballots
  /\ verifiers (snd r) = verifiers example_state.
Proof.
  destruct (@load_data_missing_file ascii_only example_host
              (mkPaths (lit "ballot_ids.csv") (lit "nobody.txt"))
              example_state) as [_ H].
  destruct (H five_ballots (lit "[Errno 2] No such file or directory")
              eq_refl eq_refl) as [H1 [H2 [H3 _]]].
  split; [exact H1|]. split; [exact H2 | exact H3].
Defined.

(** X3: [load_data] never touches the assignment and writes no file,
    whether it succeeds, misses a file or cannot read one; so an export
    that completes after a reload has written the files of the assignment
    made before the reload. *)
Theorem load_data_keeps_assignment {U : UnicodeData} {F : FileSystem}
    (host : Host) (paths : Paths) (output_directory : str) (st : State) :
  let st1 := snd (load_data host paths st) in
  assignment_results st1 = assignment_results st /\
  rng st1 = rng st /\
  writes (trace st1) = writes (trace st) /\
  (forall st2,
     generate_csv_files output_directory st1 = (Ok tt, st2) ->
     writes (trace st2)
     = writes (trace st) ++
       List.map (fun p => (filename output_directory (fst p),
                           file_rows (snd p)))
                (Dict.items (assignment_results st))).
Proof.
  cbv zeta.
  assert (H : assignment_results (snd (load_data host paths st))
              = assignment_results st /\
              rng (snd (load_data host paths st)) = rng st /\
              writes (trace (snd (load_data host paths st)))
              = writes (trace st)).
  { destruct (read_csv_ids host (ballots_csv_path paths)) as [ids|e|e] eqn:Hc.
    - destruct (open_lines host (verifiers_txt_path paths)) as [ls|e|e]
        eqn:Hl.
      + rewrite (load_data_found _ _ _ _ _ Hc Hl). cbn [snd assignment_results
          rng trace]. rewrite writes_app. cbn. now rewrite app_nil_r.
      + rewrite (load_data_no_verifiers _ _ _ _ _ Hc Hl).
        cbn [snd assignment_results rng trace]. rewrite writes_app. cbn.
        now rewrite app_nil_r.
      + rewrite (load_data_bad_verifiers _ _ _ _ _ Hc Hl).
        cbn [snd assignment_results rng trace]. rewrite writes_app. cbn.
        now rewrite app_nil_r.
    - rewrite (load_data_no_ballots _ _ _ _ Hc).
      cbn [snd assignment_results rng trace]. rewrite writes_app. cbn.
      now rewrite app_nil_r.
    - now rewrite (load_data_bad_ballots _ _ _ _ Hc). }
  destruct H as [Ha [Hr Hw]]. repeat split; try assumption.
  intros st2 H2. rewrite (generate_csv_files_ok_writes _ _ _ H2).
  now rewrite Ha, Hw.
Qed.

Lemma load_data_keeps_assignment_witness :
  writes (trace (snd (@generate_csv_files ascii_only permissive (lit "out")
                        (snd (@load_data ascii_only example_host default_paths
                                (snd (assign_ballots 5 duplicate_state)))))))
  = List.map (fun p => (@filename ascii_only (lit "out") (fst p),
                        file_rows (snd p)))
             (built (ballot_ids duplicate_state)
                    (verifiers duplicate_state) 5 []).
Proof.
  destruct (@load_data_keeps_assignment ascii_only permissive example_host
              default_paths (lit "out")
              (snd (assign_ballots 5 duplicate_state)))
    as [_ [_ [_ H]]].
  apply H. vm_compute. reflexivity.
Defined.

Lemma uniq_not_nil (vs : list str) : vs <> [] -> uniq vs <> [].
Proof. destruct vs; [congruence | discriminate]. Qed.


Lemma writes_warnings (ids : list Identifier) (count : Z) :
  writes (warnings ids count) = [].
Proof. unfold warnings. now destruct (len ids <? count). Qed.

(** X4: a negative count is refused by [random.sample]: the call raises
    its [ValueError], which is not the "No data loaded" error, prints no
    warning and leaves the object as it was, previous assignment
    included. *)
Theorem assign_ballots_negative_count (st : State) (count : Z) :
  ballot_ids st <> [] -> verifiers st <> [] -> count < 0 ->
  assign_ballots count st = (Raise SampleError, st) /\
  SampleError <> NotLoadedError.
Proof.
  intros Hi Hv Hc. split; [now apply assign_ballots_negative|].
  apply sample_error_not_loaded.
Qed.

Lemma assign_ballots_negative_count_witness :
  assign_ballots (-1) example_state = (Raise SampleError, example_state).
Proof.
  apply (assign_ballots_negative_count example_state (-1));
    [discriminate | discriminate | lia].
Defined.

(** X5: a call of [assign_ballots] that returns leaves the two loaded
    lists as they were, stores exactly the assignment it returns, which is
    never empty, writes no file, prints nothing unless the count exceeds
    the number of ballots, and does not depend on the assignment held
    before. *)
Theorem assign_ballots_frame (st : State) (count : Z) (a : Assignment)
    (st' : State) :
  assign_ballots count st = (Ok a, st') ->
  ballot_ids st' = ballot_ids st /\
  verifiers st' = verifiers st /\
  assignment_results st' = a /\
  a <> Dict.empty /\
  writes (trace st') = writes (trace st) /\
  (count <= len (ballot_ids st) -> trace st' = trace st) /\
  (forall old,
     fst (assign_ballots count
            (mkState (ballot_ids st) (verifiers st) old (rng st) (trace st)))
     = Ok a).
Proof.
  intros H.
  destruct (assign_ballots_inv _ _ _ _ H) as [Hi [Hv [Hc [Ha Hst]]]].
  subst st'. cbn [ballot_ids verifiers assignment_results trace].
  repeat split.
  - intros E. apply (uniq_not_nil _ Hv).
    rewrite <- (built_keys (ballot_ids st) (verifiers st) count (rng st)).
    rewrite <- Ha, E. reflexivity.
  - rewrite writes_app, writes_warnings. apply app_nil_r.
  - intros Hle. unfold warnings.
    replace (len (ballot_ids st) <? count) with false
      by (symmetry; apply Z.ltb_ge; lia).
    apply app_nil_r.
  - intros old. rewrite assign_ballots_run by assumption.
    cbn [fst ballot_ids verifiers rng]. now rewrite Ha.
Qed.

Lemma assign_ballots_frame_witness :
  ballot_ids (snd (assign_ballots 5 example_state)) = five_ballots /\
  assignment_results (snd (assign_ballots 5 example_state))
  = built five_ballots (verifiers example_state) 5 (rng example_state).
Proof.
  destruct (assign_ballots_frame example_state 5 _ _
              (assign_ballots_run example_state 5
                 ltac:(discriminate) ltac:(discriminate) ltac:(lia)))
    as [H1 [_ [H3 _]]].
  split; [exact H1 | exact H3].
Defined.

(** X6: when the count is at least the number of loaded ballots and the
    recipient names are distinct, every loaded ballot is assigned: the
    lists of the recipients together are a rearrangement of the loaded
    list. *)
Theorem assign_ballots_everything (st : State) (count : Z) (a : Assignment)
    (st' : State) :
  NoDup (verifiers st) ->
  len (ballot_ids st) <= count ->
  assign_ballots count st = (Ok a, st') ->
  Permutation (List.concat (Dict.values a)) (ballot_ids st).
Proof.
  intros Hnd Hle H.
  destruct (assign_ballots_inv _ _ _ _ H) as [Hi [Hv [Hc [-> _]]]].
  rewrite built_distinct_names by assumption.
  unfold Dict.values. rewrite blocks_concat by assumption.
  destruct (sel_from_ids (ballot_ids st) count (rng st) Hc) as [rest Hr].
  pose proof (sel_len (ballot_ids st) count (rng st) Hc) as Hl.
  set (sel := fst (selected (ballot_ids st)
                            (clamped (ballot_ids st) count) (rng st))) in *.
  assert (Hrest : rest = []).
  { apply Permutation_length in Hr. rewrite length_app in Hr.
    unfold clamped, len in Hl. apply length_zero_iff_nil. unfold len in Hle.
    lia. }
  subst rest. now rewrite app_nil_r in Hr.
Qed.

Lemma assign_ballots_everything_witness :
  Permutation
    (List.concat (Dict.values
       (built five_ballots (verifiers example_state) 7 (rng example_state))))
    five_ballots.
Proof.
  refine (assign_ballots_everything example_state 7 _ _ _ _
            (assign_ballots_run example_state 7
               ltac:(discriminate) ltac:(discriminate) ltac:(lia))).
  - repeat constructor; simpl; intuition discriminate.
  - vm_compute. discriminate.
Defined.

(** ** Export *)

Lemma get_none {V} (k : str) (d : Dict.t V) :
  ~ In k (Dict.keys d) -> Dict.get k d = None.
Proof.
  induction d as [|[k' v] d IH]; simpl; intros H; [reflexivity|].
  destruct (str_eq_dec k k') as [->|Hne]; [tauto|]. apply IH. tauto.
Qed.

(** Two dictionaries with the same keys, in order, and the same value under
    every key are equal. *)
Lemma dict_ext {V} (d1 d2 : Dict.t V) :
  NoDup (Dict.keys d1) -> Dict.keys d1 = Dict.keys d2 ->
  (forall k, Dict.get k d1 = Dict.get k d2) -> d1 = d2.
Proof.
  revert d2. induction d1 as [|[k v] d1 IH]; intros [|[k2 v2] d2] Hnd Hk Hg;
    simpl in *; try discriminate; [reflexivity|].
  injection Hk as <- Hk. inversion Hnd as [|? ? Hout Hnd']; subst.
  pose proof (Hg k) as Hgk.
  destruct (str_eq_dec k k) as [_|]; [|congruence]. injection Hgk as <-.
  f_equal. apply IH; [assumption | assumption |].
  intros k'. specialize (Hg k').
  destruct (str_eq_dec k' k) as [->|Hne]; [|exact Hg].
  rewrite !get_none; [reflexivity | now rewrite <- Hk | assumption].
Qed.

Lemma filter_none {A} (P : A -> bool) (l : list A) :
  (forall x, In x l -> P x = false) -> List.filter P l = [].
Proof.
  induction l as [|x l IH]; intros H; [reflexivity|].
  simpl. rewrite (H x) by now left. apply IH. intros y Hy. apply H. now right.
Qed.

Lemma keys_set_all_in {V} (k : str) (kvs : list (str * V)) (d : Dict.t V) :
  In k (Dict.keys (Dict.set_all kvs d))
  <-> In k (Dict.keys d) \/ In k (List.map fst kvs).
Proof.
  rewrite keys_set_all_order, in_app_iff, filter_In, uniq_in.
  destruct (mem k (Dict.keys d)) eqn:Hm.
  - apply mem_in in Hm. simpl. intuition discriminate.
  - apply mem_out in Hm. simpl. tauto.
Qed.

Lemma keys_set_all_nodup {V} (kvs : list (str * V)) (d : Dict.t V) :
  NoDup (Dict.keys d) -> NoDup (Dict.keys (Dict.set_all kvs d)).
Proof.
  intros Hd. rewrite keys_set_all_order.
  apply NoDup_app; [assumption | apply NoDup_filter, uniq_nodup |].
  intros x Hx Hf. apply filter_In in Hf. destruct Hf as [_ Hf].
  apply mem_in in Hx. rewrite Hx in Hf. discriminate.
Qed.

Lemma last_pair {V} (k : str) (kvs : list (str * V)) :
  In k (List.map fst kvs) ->
  exists l1 v l2, kvs = l1 ++ (k, v) :: l2 /\ ~ In k (List.map fst l2).
Proof.
  induction kvs as [|[k' v'] kvs IH]; intros H; [contradiction|].
  destruct (in_dec str_eq_dec k (List.map fst kvs)) as [Hin|Hout].
  - destruct (IH Hin) as [l1 [v [l2 [-> Hl]]]].
    now exists ((k', v') :: l1), v, l2.
  - destruct H as [H|H]; [|contradiction]. simpl in H. subst k'.
    now exists [], v', kvs.
Qed.

(** Doing a run of assignments a second time changes nothing. *)
Lemma set_all_twice {V} (kvs : list (str * V)) (d : Dict.t V) :
  NoDup (Dict.keys d) ->
  Dict.set_all kvs (Dict.set_all kvs d) = Dict.set_all kvs d.
Proof.
  intros Hd. apply dict_ext.
  - now apply keys_set_all_nodup, keys_set_all_nodup.
  - rewrite (keys_set_all_order kvs (Dict.set_all kvs d)).
    rewrite filter_none; [apply app_nil_r|].
    intros k Hk. rewrite uniq_in in Hk.
    replace (mem k (Dict.keys (Dict.set_all kvs d))) with true; [reflexivity|].
    symmetry. apply mem_in, keys_set_all_in. now right.
  - intros k. destruct (in_dec str_eq_dec k (List.map fst kvs)) as [Hin|Hout].
    + destruct (last_pair k kvs Hin) as [l1 [v [l2 [-> Hl]]]].
      now rewrite !DictFacts.get_set_all_last.
    + now rewrite !DictFacts.get_set_all_out.
Qed.

Lemma rstrip_spaces {U : UnicodeData} (s : str) :
  forallb isspace s = true -> rstrip s = [].
Proof.
  induction s as [|c s IH]; [reflexivity|]. simpl.
  intros H. apply andb_true_iff in H. destruct H as [Hc Hs].
  now rewrite (IH Hs), Hc.
Qed.



(** X8: export can be repeated.  A completed export leaves the assignment
    in place; when a second export completes too, it has written the same
    paths with the same rows again, and the files on disk after it are
    those after the first.  On a file system that refuses nothing the
    second export completes. *)
Theorem generate_csv_files_twice {U : UnicodeData} {F : FileSystem}
    (output_directory : str) (st st1 : State) :
  generate_csv_files output_directory st = (Ok tt, st1) ->
  let written :=
    List.map (fun p => (filename output_directory (fst p),
                        file_rows (snd p)))
             (Dict.items (assignment_results st)) in
  assignment_results st1 = assignment_results st /\
  writes (trace st1) = writes (trace st) ++ written /\
  (accepts_all F ->
   exists st2, generate_csv_files output_directory st1 = (Ok tt, st2)) /\
  (forall st2,
     generate_csv_files output_directory st1 = (Ok tt, st2) ->
     writes (trace st2) = writes (trace st1) ++ written /\
     files_after (trace st2) = files_after (trace st1)).
Proof.
  intros H1. cbv zeta.
  destruct (generate_csv_files_ok _ _ _ H1) as [Hne [Hdir Hst1]].
  assert (Ha : assignment_results st1 = assignment_results st)
    by (rewrite Hst1; reflexivity).
  split; [exact Ha|].
  split; [now apply generate_csv_files_ok_writes|].
  split.
  - intros Hacc. eexists. apply generate_csv_files_accepted;
      [assumption | assumption | now rewrite Ha].
  - intros st2 H2. split.
    + rewrite (generate_csv_files_ok_writes _ _ _ H2). now rewrite Ha.
    + unfold files_after.
      rewrite (generate_csv_files_ok_disk _ _ _ H2), Ha.
      rewrite (generate_csv_files_ok_disk _ _ _ H1).
      rewrite !DictFacts.set_all_app. apply set_all_twice.
      apply keys_set_all_nodup. constructor.
Qed.

Lemma generate_csv_files_twice_witness :
  exists st1 st2,
    @generate_csv_files ascii_only permissive (lit "out")
      (snd (assign_ballots 5 example_state)) = (Ok tt, st1) /\
    @generate_csv_files ascii_only permissive (lit "out") st1 = (Ok tt, st2) /\
    files_after (trace st2) = files_after (trace st1).
Proof.
  assert (Hacc : accepts_all permissive) by (split; reflexivity).
  assert (H1 := @generate_csv_files_accepted ascii_only permissive
                  (lit "out") (snd (assign_ballots 5 example_state)) Hacc
                  ltac:(discriminate) ltac:(vm_compute; discriminate)).
  destruct (@generate_csv_files_twice ascii_only permissive (lit "out") _ _
              H1) as [_ [_ [Hex Hsame]]].
  destruct (Hex Hacc) as [st2 H2].
  eexists. exists st2. split; [exact H1|]. split; [exact H2|].
  now apply Hsame.
Defined.

(** X9: the file name is safe: every character of
    [safe_verifier_name name], prefix included, is alphanumeric, a space, a
    hyphen or an underscore, so it holds no path separator and no dot.  A
    name whose characters are all either removed or whitespace gives the
    bare prefix. *)
Theorem safe_verifier_name_chars {U : UnicodeData} (name : str) :
  (forall c, In c (safe_verifier_name name) -> allowed c = true) /\
  (forallb (fun c => negb (allowed c) || isspace c) name = true ->
   safe_verifier_name name = lit "Assigned_ballots_").
Proof.
  unfold safe_verifier_name. rewrite kept_chars_filter. split.
  - intros c Hc. apply in_app_or in Hc. destruct Hc as [Hc|Hc].
    + assert (Hp : forallb allowed (lit "Assigned_ballots_") = true)
        by reflexivity.
      rewrite forallb_forall in Hp. now apply Hp.
    + destruct (rstrip_split (List.filter allowed name)) as [w [Hs _]].
      assert (Hin : In c (List.filter allowed name))
        by (rewrite Hs; apply in_or_app; now left).
      now apply filter_In in Hin.
  - intros H. rewrite rstrip_spaces; [apply app_nil_r|].
    apply forallb_forall. intros c Hc. apply filter_In in Hc.
    destruct Hc as [Hin Hal]. rewrite forallb_forall in H.
    specialize (H c Hin). rewrite Hal in H. exact H.
Qed.

Lemma safe_verifier_name_chars_witness :
  @safe_verifier_name ascii_only (lit "../ ?") = lit "Assigned_ballots_".
Proof.
  apply (@safe_verifier_name_chars ascii_only (lit "../ ?")). reflexivity.
Defined.

(** X10: the last writer wins.  When two recipients of the assignment get
    the same file name and no recipient after the second gets it too, then
    after an export that completed the file at the path of the first holds
    the rows of the second. *)
Theorem last_writer_wins {U : UnicodeData} {F : FileSystem}
    (output_directory : str) (st st' : State)
    (l1 l2 l3 : list (str * list Identifier)) (first second : str)
    (ballots1 ballots2 : list Identifier) :
  generate_csv_files output_directory st = (Ok tt, st') ->
  Dict.items (assignment_results st)
  = l1 ++ (first, ballots1) :: l2 ++ (second, ballots2) :: l3 ->
  filename output_directory first = filename output_directory second ->
  (forall p, In p l3 ->
     filename output_directory (fst p) <> filename output_directory second) ->
  Dict.get (filename output_directory first) (files_after (trace st'))
  = Some (Complete (file_rows ballots2)).
Proof.
  intros H Hit Hsame Hlater. rewrite Hsame.
  apply (exported_file_on_disk output_directory st st'
           (l1 ++ (first, ballots1) :: l2) l3 second ballots2 H);
    [|exact Hlater].
  rewrite Hit, <- app_assoc. reflexivity.
Qed.

Lemma last_writer_wins_witness :
  exists st',
    @generate_csv_files ascii_only permissive (lit "out")
      (mkState [] []
         [(lit "a/b", [IdInt 1]); (lit "ab", [IdInt 2; IdInt 3])] [] [])
    = (Ok tt, st') /\
    Dict.get (@filename ascii_only (lit "out") (lit "a/b"))
             (files_after (trace st'))
    = Some (Complete (file_rows [IdInt 2; IdInt 3])).
Proof.
  assert (Hacc : accepts_all permissive) by (split; reflexivity).
  assert (H := @generate_csv_files_accepted ascii_only permissive (lit "out")
                 (mkState [] []
                    [(lit "a/b", [IdInt 1]); (lit "ab", [IdInt 2; IdInt 3])]
                    [] [])
                 Hacc ltac:(discriminate) ltac:(discriminate)).
  eexists. split; [exact H|].
  apply (@last_writer_wins ascii_only permissive (lit "out") _ _
           [] [] [] (lit "a/b") (lit "ab") [IdInt 1] [IdInt 2; IdInt 3] H).
  - reflexivity.
  - reflexivity.
  - intros p [].
Defined.

Lemma in_get_nodup {V} (k : str) (v : V) (d : Dict.t V) :
  NoDup (Dict.keys d) -> In (k, v) d -> Dict.get k d = Some v.
Proof.
  induction d as [|[k' v'] d IH]; simpl; intros Hnd Hin; [contradiction|].
  inversion Hnd as [|? ? Hk' Hnd']; subst.
  destruct Hin as [Heq|Hin].
  - injection Heq as -> ->. destruct (str_eq_dec k k); congruence.
  - destruct (str_eq_dec k k') as [->|Hne]; [|now apply IH].
    exfalso. apply Hk'. now apply (in_map fst _ (k', v)).
Qed.

(** X11: a request for no ballot at all is served.  The call returns an
    assignment with an entry for every distinct name, each holding the
    empty list, and prints nothing; an export that then completes has
    written, for every distinct name, a file that holds the header row and
    nothing else. *)
Theorem assign_ballots_zero {U : UnicodeData} {F : FileSystem}
    (output_directory : str) (st : State) :
  ballot_ids st <> [] -> verifiers st <> [] ->
  exists a st',
    assign_ballots 0 st = (Ok a, st') /\
    Dict.keys a = uniq (verifiers st) /\
    (forall v b, Dict.get v a = Some b -> b = []) /\
    trace st' = trace st /\
    (forall st'',
       generate_csv_files output_directory st' = (Ok tt, st'') ->
       writes (trace st'')
       = writes (trace st) ++
         List.map (fun v => (filename output_directory v, [header]))
                  (uniq (verifiers st))).
Proof.
  intros Hi Hv. rewrite assign_ballots_run by (assumption || lia).
  set (a := built (ballot_ids st) (verifiers st) 0 (rng st)).
  assert (Hkeys : Dict.keys a = uniq (verifiers st)) by apply built_keys.
  assert (Hempty : forall v b, Dict.get v a = Some b -> b = []).
  { intros v b Hb.
    destruct (built_get_block _ _ _ _ _ _ Hb) as [j [Hj ->]].
    apply len_zero.
    pose proof (clamped_range (ballot_ids st) 0 ltac:(lia)) as Hk.
    assert (Hz : clamped (ballot_ids st) 0 = 0) by (unfold clamped in *; lia).
    rewrite block_len;
      [ | tauto | now apply verifiers_pos | now apply sel_len | exact Hj ].
    rewrite Hz. unfold extra_of. rewrite Z.div_0_l, Z.mod_0_l
      by (pose proof (verifiers_pos _ Hv); lia).
    destruct (Z.ltb_spec j 0); lia. }
  assert (Htr : trace st ++ warnings (ballot_ids st) 0 = trace st).
  { unfold warnings. pose proof (len_nonneg (ballot_ids st)).
    replace (len (ballot_ids st) <? 0) with false
      by (symmetry; apply Z.ltb_ge; lia).
    apply app_nil_r. }
  eexists. eexists. split; [reflexivity|]. cbn [trace].
  split; [exact Hkeys|]. split; [exact Hempty|]. split; [exact Htr|].
  intros st'' H2. rewrite (generate_csv_files_ok_writes _ _ _ H2).
  cbn [assignment_results trace]. rewrite Htr. f_equal.
  rewrite <- Hkeys. unfold Dict.items, Dict.keys. rewrite map_map.
  apply map_ext_in. intros [v b] Hin. cbn [fst snd].
  rewrite (Hempty v b); [reflexivity|].
  apply in_get_nodup; [|exact Hin]. rewrite Hkeys. apply uniq_nodup.
Qed.

Lemma assign_ballots_zero_witness :
  exists a st',
    assign_ballots 0 example_state = (Ok a, st') /\
    Dict.keys a = [lit "X"; lit "Y"; lit "Z"].
Proof.
  destruct (@assign_ballots_zero ascii_only permissive (lit "out")
              example_state)
    as [a [st' [H [Hk _]]]]; [discriminate | discriminate |].
  exists a, st'. split; [exact H | exact Hk].
Defined.

Lemma Identifier_eq_dec (x y : Identifier) : {x = y} + {x <> y}.
Proof.
  decide equality; [apply Z.eq_dec | apply str_eq_dec].
Qed.

(** X12: repeated identifiers in the loaded list are not checked, and yet
    no identifier is assigned more often than it is loaded: every returned
    assignment holds each identifier at most as many times as the loaded
    list does. *)
Theorem assign_ballots_no_more_than_loaded (st : State) (count : Z)
    (a : Assignment) (st' : State) (x : Identifier) :
  assign_ballots count st = (Ok a, st') ->
  (count_occ Identifier_eq_dec (List.concat (Dict.values a)) x
   <= count_occ Identifier_eq_dec (ballot_ids st) x)%nat.
Proof.
  intros H.
  destruct (assign_ballots_inv _ _ _ _ H) as [Hids [Hvs [Hc [-> _]]]].
  destruct (built_values_from_sel (ballot_ids st) (verifiers st) count
              (rng st) Hvs Hc) as [dropped Hd].
  destruct (sel_from_ids (ballot_ids st) count (rng st) Hc) as [rest Hr].
  rewrite (Permutation_count_occ Identifier_eq_dec) in Hr, Hd.
  specialize (Hr x). specialize (Hd x).
  rewrite count_occ_app in Hr, Hd. lia.
Qed.

Lemma assign_ballots_no_more_than_loaded_witness :
  (count_occ Identifier_eq_dec
     (List.concat (Dict.values
        (built [IdInt 7; IdInt 7; IdInt 8] [lit "X"; lit "Y"] 3 [])))
     (IdInt 7)
   <= count_occ Identifier_eq_dec [IdInt 7; IdInt 7; IdInt 8] (IdInt 7))%nat.
Proof.
  apply (assign_ballots_no_more_than_loaded
           (mkState [IdInt 7; IdInt 7; IdInt 8] [lit "X"; lit "Y"]
                    Dict.empty [] [])
           3 _ _ (IdInt 7)
           (assign_ballots_run
              (mkState [IdInt 7; IdInt 7; IdInt 8] [lit "X"; lit "Y"]
                       Dict.empty [] [])
              3 ltac:(discriminate) ltac:(discriminate) ltac:(lia))).
Defined.

(** ** The complete run *)










Section RunFacts.

Context {U : UnicodeData} {F : FileSystem}.
Variables (host : Host) (paths : Paths).
Variables (ballots_to_assign : Z) (output_directory : str) (st : State).










End RunFacts.




